(** * optimum-benchmark: the isolated execution and measurement core

    A shallow embedding of
      - [src/benchmark/base.py]   (class [Benchmark]: sample tracker and
        aggregator), and
      - [optimum_benchmark/launchers/process/launcher.py]
        ([ProcessLauncher.launch] and the child-side [target]),
      - [optimum_benchmark/backends/transformers_utils.py]
        ([get_flat_dict], [get_flat_artifact_dict],
        [extract_transformers_shapes_from_artifacts], [fast_weights_init]),
      - [optimum_benchmark/backends/py_txi/backend.py]
        (the keyword-argument properties and the two model loaders).

    Numbers.  In [Bench], Python's [float] values are kept as exact
    rationals ([Q]): a quotient [a / b] there is the real quotient, of which
    the interpreter stores the nearest double.  What is proved at that level
    is about the samples recorded, the exceptions raised and the order of
    the tests, which rounding does not change.  The only non-finite float
    the sources write down, [float('-inf')] (the default of
    [Benchmark.throughput]), has its own constructor.  Python raises
    [ZeroDivisionError] on a zero divisor, for [int] and [float] alike; that
    is written out in [py_div].

    [Bench64] embeds [finalize] a second time with the interpreter's own
    numbers, unbounded [int]s and IEEE 754 binary64 doubles, for the
    property that rounding decides: whether the stored throughput is
    positive. *)

From Stdlib Require Import QArith ZArith Lia Lqa.
From Stdlib Require Import Floats.SpecFloat.
From stdpp Require Import base list strings pretty gmap.

Local Open Scope Z_scope.

(** ** src/benchmark/base.py *)
Module Bench.

(** [Optional[float]] field whose default is [float('-inf')]; every other
    value the class stores is a quotient computed by [finalize] or [merge]. *)
Inductive pyfloat :=
| NegInf
| Fin (q : Q).

(** The two [assert] messages of [merge]. *)
Inductive assertion :=
| EmptyBenchmark              (* "Empty benchmark (0 latency measurements recorded)" *)
| NotFinalized (t : pyfloat). (* f"Benchmark has not been finalized, throughput < 0 ({b.throughput})" *)

(** Exceptions that cross the functions of this module. *)
Inductive exn :=
| ZeroDivisionError
| AssertionError (msg : assertion)
| ValueError (msg : string)
| UserError (cls msg : string). (* whatever a tracked unit of work raises *)

Inductive result (A : Type) :=
| Ok (a : A)
| Raise (e : exn).
Arguments Ok {A} a.
Arguments Raise {A} e.

Record Benchmark := mkBenchmark {
  latencies : list Q;
  throughput : pyfloat
}.

(** [Benchmark()] : [field(default_factory=list)], [float('-inf')]. *)
Definition new_benchmark : Benchmark := mkBenchmark [] NegInf.

Definition num_runs (self : Benchmark) : nat := length (latencies self).

(** Python's [sum]: left to right, starting from [0]; the exact sum, of
    which the interpreter keeps a rounding. *)
Definition py_sum (l : list Q) : Q := fold_left Qplus l 0%Q.

Definition runs_duration (self : Benchmark) : Q := py_sum (latencies self).

(** [a / b] on numbers: the exact quotient ([Bench64.truediv] is the
    rounded one). *)
Definition py_div (a b : Q) : result Q :=
  if Qeq_bool b 0 then Raise ZeroDivisionError else Ok (a / b)%Q.

Definition of_nat (n : nat) : Q := inject_Z (Z.of_nat n).

(** The one-row frame built by [perfs]. *)
Record perfs_row := mkPerfs {
  mean_latency : Q;
  perfs_throughput : pyfloat
}.

Definition perfs (self : Benchmark) : result perfs_row :=
  match py_div (runs_duration self) (of_nat (num_runs self)) with
  | Raise e => Raise e
  | Ok m => Ok (mkPerfs m (throughput self))
  end.

(** [details]: the column of latencies, indexed by [range(num_runs)]. *)
Definition details (self : Benchmark) : list (nat * Q) :=
  combine (seq 0 (num_runs self)) (latencies self).

(** *** [track]

    The world a [with self.track(device):] block runs in: the benchmark
    itself, the monotonic clock read by [time.perf_counter_ns()] and the
    device timeline on which CUDA events are recorded (milliseconds, as
    [elapsed_time] reports them). *)
Record world := mkWorld {
  self_ : Benchmark;
  perf_counter_ns : Z;
  cuda_timeline_ms : Q
}.

(** How a block of statements ends. *)
Inductive outcome :=
| Normal
| Raised (e : exn).

(** The unit of work wrapped by the scope: it may do anything to the world
    and either completes or raises. *)
Definition unit_of_work := world → outcome * world.

Definition append_latency (latency : Q) (w : world) : world :=
  mkWorld (mkBenchmark (latencies (self_ w) ++ [latency]) (throughput (self_ w)))
          (perf_counter_ns w) (cuda_timeline_ms w).

(** [with self.track(device): body].  The generator has no [try] around its
    [yield]: an exception of the body is thrown in at the [yield], leaves
    the generator at once, and [contextmanager.__exit__] lets the same
    exception continue. *)
Definition track (device : string) (body : unit_of_work) (w : world)
  : outcome * world :=
  if String.eqb device "cpu" then
    let start := perf_counter_ns w in
    match body w with
    | (Normal, w1) =>
        let end_ := perf_counter_ns w1 in
        let latency_ns := end_ - start in
        let latency := (inject_Z latency_ns / inject_Z (10 ^ 9))%Q in
        (Normal, append_latency latency w1)
    | (Raised e, w1) => (Raised e, w1)
    end
  else if String.eqb device "cuda" then
    let start_event := cuda_timeline_ms w in
    match body w with
    | (Normal, w1) =>
        let end_event := cuda_timeline_ms w1 in
        let latency_ms := (end_event - start_event)%Q in
        let latency := (latency_ms / inject_Z (10 ^ 3))%Q in
        (Normal, append_latency latency w1)
    | (Raised e, w1) => (Raised e, w1)
    end
  else
    (Raised (ValueError ("Unsupported device type " ++ device)), w).

(** *** [finalize] and [merge] *)

Definition finalize (self : Benchmark) (benchmark_duration : Q)
  : result Benchmark :=
  match py_div (of_nat (num_runs self)) benchmark_duration with
  | Raise e => Raise e
  | Ok t => Ok (mkBenchmark (latencies self) (Fin t))
  end.

(** [b.throughput > 0.] *)
Definition gt0 (t : pyfloat) : bool :=
  match t with
  | NegInf => false
  | Fin q => negb (Qle_bool q 0)
  end.

Definition pyfloat_add (a b : pyfloat) : pyfloat :=
  match a, b with
  | Fin x, Fin y => Fin (x + y)
  | _, _ => NegInf
  end.

(** [sum(throughputs)], exact as [py_sum] is. *)
Definition pyfloat_sum (l : list pyfloat) : pyfloat :=
  fold_left pyfloat_add l (Fin 0).

(** [x / len(...)] *)
Definition pyfloat_div_len (a : pyfloat) (n : nat) : result pyfloat :=
  match n with
  | O => Raise ZeroDivisionError
  | S _ => match a with
           | NegInf => Ok NegInf
           | Fin x => Ok (Fin (x / of_nat n))
           end
  end.

(** The [for b in benchmarks] loop, with its two accumulators. *)
Fixpoint merge_loop (benchmarks : list Benchmark)
    (lats : list Q) (throughputs : list pyfloat)
  : result (list Q * list pyfloat) :=
  match benchmarks with
  | [] => Ok (lats, throughputs)
  | b :: rest =>
      if Nat.ltb 0 (length (latencies b)) then
        if gt0 (throughput b) then
          merge_loop rest (lats ++ latencies b) (throughputs ++ [throughput b])
        else Raise (AssertionError (NotFinalized (throughput b)))
      else Raise (AssertionError EmptyBenchmark)
  end.

Definition merge (benchmarks : list Benchmark) : result Benchmark :=
  match merge_loop benchmarks [] [] with
  | Raise e => Raise e
  | Ok (lats, throughputs) =>
      match pyfloat_div_len (pyfloat_sum throughputs) (length throughputs) with
      | Raise e => Raise e
      | Ok mean_throughput => Ok (mkBenchmark lats mean_throughput)
      end
  end.

(** ** Properties of the tracker and the aggregator *)

(** What the specification calls a non-positive throughput; the sentinel of
    an unfinalized benchmark is one. *)
Definition non_positive (t : pyfloat) : Prop :=
  match t with
  | NegInf => True
  | Fin q => (q <= 0)%Q
  end.


Definition supported (device : string) : Prop :=
  device = "cpu"%string ∨ device = "cuda"%string.

Lemma py_div_zero a b : (b == 0)%Q → py_div a b = Raise ZeroDivisionError.
Proof.
  intros Hb. unfold py_div.
  destruct (Qeq_bool b 0) eqn:E; [reflexivity|].
  apply Qeq_bool_neq in E. contradiction.
Qed.

Lemma py_div_nonzero a b : ¬ (b == 0)%Q → py_div a b = Ok (a / b)%Q.
Proof.
  intros Hb. unfold py_div.
  destruct (Qeq_bool b 0) eqn:E; [|reflexivity].
  apply Qeq_bool_eq in E. contradiction.
Qed.

Lemma of_nat_pos n : (0 < n)%nat → (0 < of_nat n)%Q.
Proof.
  intros Hn. unfold of_nat, Qlt. simpl. lia.
Qed.

Lemma gt0_false_iff t : gt0 t = false ↔ non_positive t.
Proof.
  destruct t as [|q]; simpl; [tauto|].
  rewrite negb_false_iff. apply Qle_bool_iff.
Qed.

Lemma gt0_true_iff q : gt0 (Fin q) = true ↔ (0 < q)%Q.
Proof.
  simpl. rewrite negb_true_iff. split.
  - intros H. apply Qnot_le_lt. intros Hle.
    apply Qle_bool_iff in Hle. congruence.
  - intros H. destruct (Qle_bool q 0) eqn:E; [|reflexivity].
    apply Qle_bool_iff in E. exfalso. exact (Qlt_not_le _ _ H E).
Qed.

(** *** The tracker *)

Definition concrete_world (lats : list Q) (ns : Z) : world :=
  mkWorld (mkBenchmark lats NegInf) ns 0.

(** A unit of work that takes [ns] nanoseconds of wall-clock time. *)
Definition sleep_ns (ns : Z) : unit_of_work :=
  λ w, (Normal, mkWorld (self_ w) (perf_counter_ns w + ns) (cuda_timeline_ms w)).

(** A unit of work that runs for a while and then raises. *)
Definition failing_unit (ns : Z) (e : exn) : unit_of_work :=
  λ w, (Raised e, mkWorld (self_ w) (perf_counter_ns w + ns) (cuda_timeline_ms w)).

(** The sample the specification asks for: wall-clock nanoseconds over 1e9
    on cpu, device milliseconds over 1e3 otherwise. *)
Definition elapsed_seconds (device : string) (before after : world) : Q :=
  if String.eqb device "cpu"
  then (inject_Z (perf_counter_ns after - perf_counter_ns before)
        / inject_Z 1000000000)%Q
  else ((cuda_timeline_ms after - cuda_timeline_ms before) / inject_Z 1000)%Q.

Lemma num_runs_append sample w :
  num_runs (self_ (append_latency sample w)) = S (num_runs (self_ w)).
Proof. unfold num_runs. simpl. rewrite length_app. simpl. lia. Qed.

(** Decide the device tests of [track] on a literal device name and run the
    body, whose result is known by [Hb]. *)
Ltac enter_track Hb :=
  unfold track; simpl String.eqb; cbv iota; rewrite Hb.

(** C3. On a supported device kind (cpu, cuda), a tracked unit of work that
    completes normally gets exactly one latency sample appended to the
    sequence (nothing else of the world it left behind changes); a unit that
    raises gets none: the world, and with it the latency sequence, is as the
    unit left it, and the very same exception leaves the scope. *)
Theorem track_one_sample_or_propagate (device : string) (body : unit_of_work) (w : world) :
  supported device →
  (∀ w1, body w = (Normal, w1) →
     track device body w
       = (Normal, append_latency (elapsed_seconds device w w1) w1)
     ∧ latencies (self_ (snd (track device body w)))
         = latencies (self_ w1) ++ [elapsed_seconds device w w1]
     ∧ num_runs (self_ (snd (track device body w))) = S (num_runs (self_ w1)))
  ∧ (∀ e w1, body w = (Raised e, w1) →
       track device body w = (Raised e, w1)
       ∧ latencies (self_ (snd (track device body w))) = latencies (self_ w1)).
Proof.
  intros [-> | ->]; split.
  - intros w1 Hb. enter_track Hb. split; [reflexivity|]. split; [reflexivity|].
    apply num_runs_append.
  - intros e w1 Hb. enter_track Hb. split; reflexivity.
  - intros w1 Hb. enter_track Hb. split; [reflexivity|]. split; [reflexivity|].
    apply num_runs_append.
  - intros e w1 Hb. enter_track Hb. split; reflexivity.
Qed.

Lemma track_one_sample_or_propagate_witness :
  latencies (self_ (snd (track "cpu" (sleep_ns 2000000) (concrete_world [(1#10)%Q] 5))))
    = [(1#10)%Q; (2000000 # 1000000000)%Q]
  ∧ track "cpu" (failing_unit 7 (UserError "ValueError" "bad input"))
          (concrete_world [(1#10)%Q] 5)
      = (Raised (UserError "ValueError" "bad input"),
         mkWorld (mkBenchmark [(1#10)%Q] NegInf) 12 0).
Proof.
  split.
  - exact (proj1 (proj2 (proj1
      (track_one_sample_or_propagate "cpu" (sleep_ns 2000000)
         (concrete_world [(1#10)%Q] 5) (or_introl eq_refl)) _ eq_refl))).
  - exact (proj1 (proj2
      (track_one_sample_or_propagate "cpu"
         (failing_unit 7 (UserError "ValueError" "bad input"))
         (concrete_world [(1#10)%Q] 5) (or_introl eq_refl)) _ _ eq_refl)).
Defined.

(** *** [finalize] *)

Lemma Qpos_nonzero d : (0 < d)%Q → ¬ (d == 0)%Q.
Proof. intros Hd Hz. rewrite Hz in Hd. exact (Qlt_irrefl _ Hd). Qed.

Lemma Qdiv_pos a b : (0 < a)%Q → (0 < b)%Q → (0 < a / b)%Q.
Proof.
  intros Ha Hb. apply Qlt_shift_div_l; [exact Hb|].
  rewrite Qmult_0_l. exact Ha.
Qed.

Lemma finalize_nonzero b d :
  ¬ (d == 0)%Q →
  finalize b d = Ok (mkBenchmark (latencies b) (Fin (of_nat (num_runs b) / d))).
Proof. intros Hd. unfold finalize. rewrite (py_div_nonzero _ _ Hd). reflexivity. Qed.

Lemma finalize_zero b d : (d == 0)%Q → finalize b d = Raise ZeroDivisionError.
Proof. intros Hd. unfold finalize. rewrite (py_div_zero _ _ Hd). reflexivity. Qed.

Lemma of_nat_div_nonpos n d :
  (n = 0%nat ∨ (d < 0)%Q) → (of_nat n / d <= 0)%Q.
Proof.
  intros H. destruct d as [[|p|p] q];
    unfold Qle, Qlt, Qdiv, Qinv, Qmult, of_nat in *; simpl in *.
  - lia.
  - destruct H as [-> | H]; simpl; lia.
  - destruct H as [-> | H]; simpl; [lia | nia].
Qed.

(** The three samples of the specification's example. *)
Definition three_samples : Benchmark :=
  mkBenchmark [(1#10)%Q; (2#10)%Q; (2#10)%Q] NegInf.

(** C4, as stated, fails: [finalize] has no guard.  With no sample at all
    and a positive duration it stores the throughput 0; with a negative
    duration it stores a negative throughput.  Neither call raises. *)
Lemma finalize_unguarded_counterexample :
  num_runs new_benchmark = 0%nat
  ∧ finalize new_benchmark 2 = Ok (mkBenchmark [] (Fin (0 # 2)))
  ∧ (-2 <= 0)%Q
  ∧ finalize three_samples (-2)
      = Ok (mkBenchmark (latencies three_samples) (Fin (-3 # 2)))
  ∧ ¬ (∀ b d, (num_runs b = 0%nat ∨ (d <= 0)%Q) → ∃ e, finalize b d = Raise e).
Proof.
  split; [reflexivity|]. split; [reflexivity|].
  split; [discriminate|]. split; [reflexivity|].
  intros H. destruct (H new_benchmark 2%Q (or_introl eq_refl)) as [e He].
  discriminate He.
Qed.

(** C4, amended.  [finalize] fails exactly when the duration is zero, with
    Python's [ZeroDivisionError]: a division by zero is surfaced, never
    silently produced.  For every other duration it succeeds and stores
    [num_runs / duration], whatever the number of samples and the sign of
    the duration; without samples or with a negative duration the stored
    throughput is not positive. *)
Theorem finalize_raises_iff_zero_duration (b : Benchmark) (d : Q) :
  ((d == 0)%Q → finalize b d = Raise ZeroDivisionError)
  ∧ (¬ (d == 0)%Q →
       finalize b d
         = Ok (mkBenchmark (latencies b) (Fin (of_nat (num_runs b) / d))))
  ∧ (num_runs b = 0%nat ∨ (d < 0)%Q →
       non_positive (Fin (of_nat (num_runs b) / d))).
Proof.
  split; [apply finalize_zero|]. split; [apply finalize_nonzero|].
  intros H. simpl. apply of_nat_div_nonpos. exact H.
Qed.

Lemma finalize_raises_iff_zero_duration_witness :
  finalize three_samples 0 = Raise ZeroDivisionError
  ∧ finalize new_benchmark 0 = Raise ZeroDivisionError
  ∧ finalize new_benchmark (5#2)
      = Ok (mkBenchmark [] (Fin (of_nat 0 / (5#2))))
  ∧ non_positive (Fin (of_nat (num_runs three_samples) / (-2))).
Proof.
  split; [|split; [|split]].
  - apply (proj1 (finalize_raises_iff_zero_duration three_samples 0)).
    reflexivity.
  - apply (proj1 (finalize_raises_iff_zero_duration new_benchmark 0)).
    reflexivity.
  - apply (proj1 (proj2 (finalize_raises_iff_zero_duration new_benchmark (5#2)))).
    discriminate.
  - apply (proj2 (proj2 (finalize_raises_iff_zero_duration three_samples (-2)))).
    right. reflexivity.
Defined.

(** *** [perfs] *)

Lemma of_nat_zero : (of_nat 0 == 0)%Q.
Proof. reflexivity. Qed.

(** C10. The performance view divides [runs_duration] by [num_runs] with no
    guard: on a benchmark without samples the access raises Python's
    [ZeroDivisionError] (no row, no error of the module's own); with at
    least one sample it returns the row whose mean latency is
    [runs_duration / num_runs]. *)
Theorem perfs_defined_iff_sampled (b : Benchmark) :
  (num_runs b = 0%nat → perfs b = Raise ZeroDivisionError)
  ∧ ((0 < num_runs b)%nat →
       perfs b = Ok (mkPerfs (runs_duration b / of_nat (num_runs b))
                             (throughput b))).
Proof.
  unfold perfs. split; intros Hn.
  - rewrite Hn. rewrite (py_div_zero _ _ of_nat_zero). reflexivity.
  - rewrite py_div_nonzero; [reflexivity|].
    apply Qpos_nonzero, of_nat_pos, Hn.
Qed.

Lemma perfs_defined_iff_sampled_witness :
  perfs new_benchmark = Raise ZeroDivisionError
  ∧ perfs three_samples
      = Ok (mkPerfs (runs_duration three_samples / of_nat 3) NegInf).
Proof.
  split.
  - apply (proj1 (perfs_defined_iff_sampled new_benchmark)). reflexivity.
  - apply (proj2 (perfs_defined_iff_sampled three_samples)). vm_compute. lia.
Defined.

(** *** [merge] *)

(** A finalized input, in the specification's sense: at least one sample
    and a positive throughput. *)
Definition finalized (b : Benchmark) : Prop :=
  (0 < num_runs b)%nat ∧ ∃ q, throughput b = Fin q ∧ (0 < q)%Q.

(** An input that [merge] must refuse. *)
Definition unfinalized (b : Benchmark) : Prop :=
  num_runs b = 0%nat ∨ non_positive (throughput b).

Definition throughput_value (b : Benchmark) : Q :=
  match throughput b with
  | NegInf => 0
  | Fin q => q
  end.

Lemma finalized_passes b :
  finalized b →
  Nat.ltb 0 (length (latencies b)) = true ∧ gt0 (throughput b) = true
  ∧ throughput b = Fin (throughput_value b).
Proof.
  intros [Hn (q & Hq & Hpos)]. split; [|split].
  - apply Nat.ltb_lt. exact Hn.
  - rewrite Hq. apply gt0_true_iff. exact Hpos.
  - unfold throughput_value. rewrite Hq. reflexivity.
Qed.

Lemma merge_loop_finalized bs : ∀ lats ts,
  Forall finalized bs →
  merge_loop bs lats ts
    = Ok (lats ++ concat (map latencies bs),
          ts ++ map (λ b, Fin (throughput_value b)) bs).
Proof.
  induction bs as [|b bs IH]; intros lats ts Hall; simpl.
  - rewrite !app_nil_r. reflexivity.
  - inversion Hall as [|? ? Hb Hbs]; subst.
    destruct (finalized_passes b Hb) as (Hlen & Hgt & Hthr).
    rewrite Hlen, Hgt, (IH _ _ Hbs), Hthr, <- !app_assoc. reflexivity.
Qed.

Lemma merge_loop_unfinalized bs : ∀ lats ts,
  Exists unfinalized bs →
  ∃ msg, merge_loop bs lats ts = Raise (AssertionError msg).
Proof.
  induction bs as [|b bs IH]; intros lats ts Hex.
  - inversion Hex.
  - simpl. destruct (Nat.ltb 0 (length (latencies b))) eqn:Hlen;
      [|eexists; reflexivity].
    destruct (gt0 (throughput b)) eqn:Hgt; [|eexists; reflexivity].
    apply IH. inversion Hex as [? ? [Hn | Hnp] | ? ? Hrest]; subst.
    + apply Nat.ltb_lt in Hlen. unfold num_runs in Hn. lia.
    + apply gt0_false_iff in Hnp. congruence.
    + exact Hrest.
Qed.

Lemma pyfloat_sum_Fin qs : ∀ a,
  fold_left pyfloat_add (map Fin qs) (Fin a) = Fin (fold_left Qplus qs a).
Proof.
  induction qs as [|q qs IH]; intros a; simpl; [reflexivity | apply IH].
Qed.



Lemma merge_finalized b bs :
  Forall finalized (b :: bs) →
  merge (b :: bs)
    = Ok (mkBenchmark
            (concat (map latencies (b :: bs)))
            (Fin (fold_left Qplus (map throughput_value (b :: bs)) 0
                  / of_nat (length (b :: bs)))%Q)).
Proof.
  intros Hall. unfold merge. rewrite (merge_loop_finalized _ _ _ Hall).
  rewrite !app_nil_l. rewrite length_map.
  rewrite <- (map_map throughput_value Fin).
  unfold pyfloat_sum. rewrite pyfloat_sum_Fin. reflexivity.
Qed.





Definition run_A : Benchmark := mkBenchmark [(1#10)%Q; (2#10)%Q] (Fin 4).
Definition run_B : Benchmark := mkBenchmark [(3#10)%Q] (Fin 5).
Definition run_C : Benchmark := mkBenchmark [(1#2)%Q; (1#4)%Q; (1#8)%Q] (Fin 9).


(** C6. [merge] of the empty list fails: no input passes through the loop
    and the mean of no throughput at all divides by zero
    ([ZeroDivisionError]).  [merge] of a list with an input that has no
    sample or a non-positive throughput (the [-inf] of a benchmark never
    finalized is one) fails on that input's [assert] ([AssertionError]). *)
Theorem merge_rejects_empty_and_unfinalized :
  merge [] = Raise ZeroDivisionError
  ∧ (∀ bs : list Benchmark,
       Exists unfinalized bs →
       ∃ msg, merge bs = Raise (AssertionError msg))
  ∧ merge [new_benchmark] = Raise (AssertionError EmptyBenchmark)
  ∧ merge [three_samples] = Raise (AssertionError (NotFinalized NegInf)).
Proof.
  split; [reflexivity|]. split; [|split; reflexivity].
  intros bs Hex. unfold merge.
  destruct (merge_loop_unfinalized bs [] [] Hex) as [msg ->].
  exists msg. reflexivity.
Qed.

Lemma merge_rejects_empty_and_unfinalized_witness :
  ∃ msg, merge [run_A; mkBenchmark [(1#10)%Q] (Fin 0); new_benchmark]
           = Raise (AssertionError msg).
Proof.
  apply (proj1 (proj2 merge_rejects_empty_and_unfinalized)).
  apply Exists_cons_tl, Exists_cons_hd. right. simpl. discriminate.
Defined.

(** ** Further properties of the tracker and the aggregator *)

(** *** [track], outside the two supported devices and across a scope *)

(** X1. On a device that is neither "cpu" nor "cuda" the scope raises
    [ValueError] before the unit of work is entered: the unit never runs and
    the world, latencies included, is untouched. *)
Theorem track_unsupported_device (device : string) (body : unit_of_work) (w : world) :
  device ≠ "cpu"%string → device ≠ "cuda"%string →
  track device body w
    = (Raised (ValueError ("Unsupported device type " ++ device)), w).
Proof.
  intros Hcpu Hcuda. unfold track.
  apply String.eqb_neq in Hcpu, Hcuda. rewrite Hcpu, Hcuda. reflexivity.
Qed.

Lemma track_unsupported_device_witness :
  track "tpu" (sleep_ns 5) (concrete_world [(1#10)%Q] 3)
    = (Raised (ValueError "Unsupported device type tpu"),
       concrete_world [(1#10)%Q] 3).
Proof.
  apply (track_unsupported_device "tpu" (sleep_ns 5)); discriminate.
Defined.

Definition non_negative (l : list Q) : Prop := Forall (λ q, (0 <= q)%Q) l.

Lemma Qdiv_nonneg a b : (0 <= a)%Q → (0 < b)%Q → (0 <= a / b)%Q.
Proof.
  intros Ha Hb. apply Qle_shift_div_l; [exact Hb|]. rewrite Qmult_0_l. exact Ha.
Qed.

(** X2. As long as neither clock runs backwards across the unit of work
    ([perf_counter_ns] is monotonic, device time only grows), a completed
    scope keeps every latency non-negative: the sample it appends is the
    clock difference over a positive constant. *)
Theorem track_keeps_samples_non_negative (device : string) (body : unit_of_work)
    (w w1 : world) :
  supported device →
  body w = (Normal, w1) →
  perf_counter_ns w ≤ perf_counter_ns w1 →
  (cuda_timeline_ms w <= cuda_timeline_ms w1)%Q →
  non_negative (latencies (self_ w1)) →
  non_negative (latencies (self_ (snd (track device body w)))).
Proof.
  intros Hdev Hb Hns Hms Hall. unfold non_negative in *.
  destruct Hdev as [-> | ->]; enter_track Hb; simpl;
    apply Forall_app; (split; [exact Hall|]); repeat constructor.
  - apply Qdiv_nonneg; [|reflexivity].
    unfold Qle. simpl. lia.
  - apply Qdiv_nonneg; [|reflexivity]. lra.
Qed.

Lemma track_keeps_samples_non_negative_witness :
  non_negative
    (latencies (self_ (snd (track "cpu" (sleep_ns 2000000)
                                  (concrete_world [(1#10)%Q] 5))))).
Proof.
  apply (track_keeps_samples_non_negative "cpu" (sleep_ns 2000000)
           (concrete_world [(1#10)%Q] 5) _ (or_introl eq_refl) eq_refl).
  - simpl. lia.
  - simpl. apply Qle_refl.
  - repeat constructor. discriminate.
Defined.

(** *** [details] *)

Lemma details_lookup (l : list Q) : ∀ k i row,
  combine (seq k (length l)) l !! i = Some row ↔
  row.1 = (k + i)%nat ∧ l !! i = Some row.2.
Proof.
  induction l as [|x l IH]; intros k i [j q]; simpl.
  - split; [discriminate | intros [_ H]; discriminate].
  - destruct i as [|i]; simpl.
    + split; [intros [= <- <-]; split; [lia | reflexivity]|].
      intros [-> [= ->]]. repeat f_equal. lia.
    + rewrite IH. simpl. split; intros [H1 H2]; (split; [lia | exact H2]).
Qed.

(** X3. The detail view has one row per run, indexed 0, 1, ... in call
    order, and row [i] carries exactly the [i]-th latency; nothing is
    dropped, reordered or invented, and an empty benchmark gives an empty
    view instead of an error. *)
Theorem details_rows (b : Benchmark) :
  length (details b) = num_runs b
  ∧ map fst (details b) = seq 0 (num_runs b)
  ∧ map snd (details b) = latencies b
  ∧ (∀ i q, details b !! i = Some (i, q) ↔ latencies b !! i = Some q)
  ∧ (∀ i row, details b !! i = Some row → fst row = i).
Proof.
  unfold details, num_runs.
  split; [|split; [|split; [|split]]].
  - rewrite length_combine, length_seq. lia.
  - generalize 0%nat. induction (latencies b) as [|x l IH]; intros k; simpl;
      [reflexivity | f_equal; apply IH].
  - generalize 0%nat. induction (latencies b) as [|x l IH]; intros k; simpl;
      [reflexivity | f_equal; apply IH].
  - intros i q. rewrite details_lookup. simpl.
    split; [intros [_ H]; exact H | auto].
  - intros i row Hrow. apply details_lookup in Hrow. simpl in Hrow. tauto.
Qed.

Lemma details_rows_witness :
  details three_samples !! 1%nat = Some (1%nat, (2#10)%Q).
Proof.
  apply (proj1 (proj2 (proj2 (proj2 (details_rows three_samples)))) 1%nat).
  reflexivity.
Defined.

(** *** [merge], further *)

Lemma merge_loop_Ok_finalized bs : ∀ lats ts r,
  merge_loop bs lats ts = Ok r → Forall finalized bs.
Proof.
  induction bs as [|b bs IH]; intros lats ts r H; [constructor|].
  simpl in H.
  destruct (Nat.ltb 0 (length (latencies b))) eqn:Hlen; [|discriminate].
  destruct (gt0 (throughput b)) eqn:Hgt; [|discriminate].
  constructor; [|eapply IH; exact H].
  split; [apply Nat.ltb_lt; exact Hlen|].
  destruct (throughput b) as [|q]; [discriminate|].
  exists q. split; [reflexivity | apply gt0_true_iff; exact Hgt].
Qed.

Lemma merge_Ok_inv bs m :
  merge bs = Ok m → bs ≠ [] ∧ Forall finalized bs.
Proof.
  intros H. split.
  - intros ->. discriminate H.
  - unfold merge in H.
    destruct (merge_loop bs [] []) as [r|e] eqn:Hloop; [|discriminate].
    eapply merge_loop_Ok_finalized. exact Hloop.
Qed.

Lemma merge_Ok_of_finalized bs :
  bs ≠ [] → Forall finalized bs →
  merge bs
    = Ok (mkBenchmark (concat (map latencies bs))
            (Fin (fold_left Qplus (map throughput_value bs) 0
                  / of_nat (length bs))%Q)).
Proof.
  intros Hne Hall. destruct bs as [|b bs]; [congruence|].
  apply merge_finalized. exact Hall.
Qed.

Lemma merge_Ok_shape bs m :
  merge bs = Ok m →
  m = mkBenchmark (concat (map latencies bs))
        (Fin (fold_left Qplus (map throughput_value bs) 0
              / of_nat (length bs))%Q).
Proof.
  intros H. destruct (merge_Ok_inv _ _ H) as [Hne Hall].
  rewrite (merge_Ok_of_finalized _ Hne Hall) in H. congruence.
Qed.

Lemma fold_left_Qplus_pos qs : ∀ a,
  (0 <= a)%Q → qs ≠ [] → Forall (λ q, (0 < q)%Q) qs →
  (0 < fold_left Qplus qs a)%Q.
Proof.
  induction qs as [|q qs IH]; intros a Ha Hne Hall; [congruence|].
  inversion Hall as [|? ? Hq Hqs]; subst. simpl.
  destruct qs as [|q' qs'].
  - simpl. lra.
  - apply IH; [lra | discriminate | exact Hqs].
Qed.

Lemma finalized_values_pos bs :
  Forall finalized bs → Forall (λ q, (0 < q)%Q) (map throughput_value bs).
Proof.
  induction 1 as [|b bs [_ (q & Hq & Hpos)] _ IH]; simpl; constructor;
    [|exact IH].
  unfold throughput_value. rewrite Hq. exact Hpos.
Qed.

Lemma merge_Ok_finalized bs m : merge bs = Ok m → finalized m.
Proof.
  intros H. destruct (merge_Ok_inv _ _ H) as [Hne Hall].
  rewrite (merge_Ok_shape _ _ H).
  destruct bs as [|b bs]; [congruence|]. split.
  - inversion Hall as [|? ? [Hn _] _]; subst.
    unfold num_runs in *. simpl. rewrite length_app. lia.
  - eexists. split; [reflexivity|]. apply Qdiv_pos.
    + apply fold_left_Qplus_pos; [lra | discriminate |].
      apply finalized_values_pos. exact Hall.
    + apply of_nat_pos. simpl. lia.
Qed.

(** The merge of [run_A], [run_B], [run_C]. *)
Definition merged_ABC : Benchmark :=
  mkBenchmark [(1#10)%Q; (2#10)%Q; (3#10)%Q; (1#2)%Q; (1#4)%Q; (1#8)%Q]
              (Fin (18#3)).

(** X5. [merge] succeeds exactly on a non-empty list whose inputs all have
    at least one sample and a positive throughput: there is no other way to
    get a benchmark out of it, and no such list on which it fails. *)
Theorem merge_succeeds_iff (bs : list Benchmark) :
  (∃ m, merge bs = Ok m) ↔ bs ≠ [] ∧ Forall finalized bs.
Proof.
  split.
  - intros [m H]. eapply merge_Ok_inv. exact H.
  - intros [Hne Hall]. eexists. apply merge_Ok_of_finalized; assumption.
Qed.

Lemma merge_succeeds_iff_witness :
  (∃ m, merge [run_A; run_B] = Ok m)
  ∧ ¬ (∃ m, merge [run_A; new_benchmark] = Ok m).
Proof.
  split.
  - apply (proj2 (merge_succeeds_iff [run_A; run_B])).
    split; [discriminate|].
    repeat constructor; simpl; try lia; eexists; (split; [reflexivity|]);
      reflexivity.
  - intros Hex. apply (proj1 (merge_succeeds_iff [run_A; new_benchmark])) in Hex.
    destruct Hex as [_ Hall]. inversion Hall as [|? ? _ Hrest]; subst.
    inversion Hrest as [|? ? [Hn _] _]; subst. vm_compute in Hn. lia.
Defined.

(** X6. What [merge] returns passes [merge]'s own two assertions: it has at
    least one sample and a positive throughput, so merged benchmarks can be
    merged again. *)
Theorem merge_result_is_finalized (bs : list Benchmark) (m : Benchmark) :
  merge bs = Ok m →
  finalized m ∧ ∃ m', merge [m] = Ok m'.
Proof.
  intros H. pose proof (merge_Ok_finalized _ _ H) as Hfin.
  split; [exact Hfin|]. eexists. apply merge_finalized.
  constructor; [exact Hfin | constructor].
Qed.

Lemma merge_result_is_finalized_witness :
  finalized merged_ABC ∧ ∃ m', merge [merged_ABC] = Ok m'.
Proof.
  apply (merge_result_is_finalized [run_A; run_B; run_C]). reflexivity.
Defined.

(** X7. A successful merge loses and adds no run: the number of runs of the
    result is the sum of the inputs' numbers of runs, and every input
    contributes at least one. *)
Theorem merge_adds_runs (bs : list Benchmark) (m : Benchmark) :
  merge bs = Ok m →
  num_runs m = fold_right Nat.add 0%nat (map num_runs bs)
  ∧ (length bs ≤ num_runs m)%nat.
Proof.
  intros H. destruct (merge_Ok_inv _ _ H) as [_ Hall].
  rewrite (merge_Ok_shape _ _ H). unfold num_runs. simpl.
  clear H. induction Hall as [|b bs [Hn _] _ [IH1 IH2]]; simpl; [split; reflexivity|].
  unfold num_runs in Hn. rewrite length_app, IH1. split; [reflexivity | lia].
Qed.

Lemma merge_adds_runs_witness :
  num_runs merged_ABC = (2 + (1 + (3 + 0)))%nat
  ∧ (3 ≤ num_runs merged_ABC)%nat.
Proof.
  apply (merge_adds_runs [run_A; run_B; run_C]). reflexivity.
Defined.

(** The assertion an input fails: the test on the samples comes first. *)
Definition refusal (b : Benchmark) : assertion :=
  match latencies b with
  | [] => EmptyBenchmark
  | _ :: _ => NotFinalized (throughput b)
  end.

(** X8. [merge] stops at the first input it must refuse, whatever comes
    after it, and the [AssertionError] names that input's defect: no sample
    (checked first, also when the throughput is bad as well), or else its
    non-positive throughput. *)
Theorem merge_reports_first_offender (good : list Benchmark) (bad : Benchmark)
    (rest : list Benchmark) :
  Forall finalized good → unfinalized bad →
  merge (good ++ bad :: rest) = Raise (AssertionError (refusal bad)).
Proof.
  intros Hgood Hbad. unfold merge.
  assert (Hloop : ∀ lats ts,
            merge_loop (good ++ bad :: rest) lats ts
              = Raise (AssertionError (refusal bad))).
  { induction Hgood as [|b good Hb _ IH]; intros lats ts; simpl.
    - unfold refusal. destruct (latencies bad) as [|x l] eqn:Hl; simpl;
        [reflexivity|].
      destruct Hbad as [Hn | Hnp].
      + unfold num_runs in Hn. rewrite Hl in Hn. discriminate.
      + apply gt0_false_iff in Hnp. rewrite Hnp. reflexivity.
    - destruct (finalized_passes b Hb) as (Hlen & Hgt & _).
      rewrite Hlen, Hgt. apply IH. }
  rewrite Hloop. reflexivity.
Qed.

Lemma merge_reports_first_offender_witness :
  merge [run_A; mkBenchmark [] (Fin 0); three_samples]
    = Raise (AssertionError EmptyBenchmark)
  ∧ merge [run_A; three_samples; new_benchmark]
    = Raise (AssertionError (NotFinalized NegInf)).
Proof.
  assert (HA : finalized run_A).
  { split; [vm_compute; lia|]. exists 4%Q. split; reflexivity. }
  split.
  - apply (merge_reports_first_offender [run_A] (mkBenchmark [] (Fin 0)) [three_samples]).
    + constructor; [exact HA | constructor].
    + left. reflexivity.
  - apply (merge_reports_first_offender [run_A] three_samples [new_benchmark]).
    + constructor; [exact HA | constructor].
    + right. exact I.
Defined.

Definition result_latencies (r : result Benchmark) : option (list Q) :=
  match r with
  | Ok m => Some (latencies m)
  | Raise _ => None
  end.

(** X9. Merging in two stages keeps the latencies of merging at once: if
    [bs] merges into [m], then [merge (m :: cs)] succeeds exactly when
    [merge (bs ++ cs)] does, with the same latency sequence.  (The
    throughputs differ in general: the mean of means is not the mean.) *)
Theorem merge_nested_keeps_latencies (bs cs : list Benchmark) (m : Benchmark) :
  merge bs = Ok m →
  result_latencies (merge (m :: cs)) = result_latencies (merge (bs ++ cs)).
Proof.
  intros H. destruct (merge_Ok_inv _ _ H) as [Hne Hall].
  pose proof (merge_Ok_finalized _ _ H) as Hm.
  assert (Hne' : bs ++ cs ≠ []) by (destruct bs; [congruence | discriminate]).
  destruct (merge (m :: cs)) as [r|e] eqn:Hr.
  - destruct (merge_Ok_inv _ _ Hr) as [_ Hall'].
    inversion Hall' as [|? ? _ Hcs]; subst.
    rewrite (merge_Ok_shape _ _ Hr).
    rewrite merge_Ok_of_finalized
      by (try exact Hne'; apply Forall_app; split; assumption).
    simpl. rewrite map_app, concat_app.
    rewrite (merge_Ok_shape _ _ H). reflexivity.
  - destruct (merge (bs ++ cs)) as [r|e'] eqn:Hr'; [|reflexivity].
    destruct (merge_Ok_inv _ _ Hr') as [_ Hall'].
    apply Forall_app in Hall'. destruct Hall' as [_ Hcs].
    rewrite merge_Ok_of_finalized in Hr
      by (try discriminate; constructor; assumption).
    discriminate Hr.
Qed.

Lemma merge_nested_keeps_latencies_witness :
  result_latencies (merge [mkBenchmark [(1#10)%Q; (2#10)%Q; (3#10)%Q] (Fin (9#2)); run_C])
    = result_latencies (merge ([run_A; run_B] ++ [run_C])).
Proof.
  apply (merge_nested_keeps_latencies [run_A; run_B] [run_C]). reflexivity.
Defined.

Lemma concat_map_perm {A B} (f : A → list B) l l' :
  Permutation l l' → Permutation (concat (map f l)) (concat (map f l')).
Proof.
  induction 1; simpl.
  - reflexivity.
  - apply Permutation_app; [reflexivity | assumption].
  - rewrite !app_assoc. apply Permutation_app; [|reflexivity].
    apply Permutation_app_comm.
  - etransitivity; eassumption.
Qed.

(** X10. The order of the inputs decides the order of the merged latencies:
    merging a reordered list succeeds as well, with the same samples,
    rearranged, and so with the same number of runs. *)
Theorem merge_order_of_inputs (bs bs' : list Benchmark) (m : Benchmark) :
  Permutation bs bs' → merge bs = Ok m →
  ∃ m', merge bs' = Ok m'
        ∧ Permutation (latencies m) (latencies m')
        ∧ num_runs m' = num_runs m.
Proof.
  intros Hperm H. destruct (merge_Ok_inv _ _ H) as [Hne Hall].
  assert (Hne' : bs' ≠ []).
  { intros ->. apply Permutation_nil_r in Hperm. congruence. }
  assert (Hall' : Forall finalized bs') by (rewrite <- Hperm; exact Hall).
  assert (Hlats : Permutation (concat (map latencies bs)) (concat (map latencies bs')))
    by (apply concat_map_perm; exact Hperm).
  eexists. split; [apply merge_Ok_of_finalized; assumption|].
  rewrite (merge_Ok_shape _ _ H). unfold num_runs. simpl latencies.
  split; [exact Hlats|]. symmetry. apply Permutation_length. exact Hlats.
Qed.

Lemma merge_order_of_inputs_witness :
  ∃ m', merge [run_C; run_A; run_B] = Ok m'
        ∧ Permutation (latencies merged_ABC) (latencies m')
        ∧ num_runs m' = num_runs merged_ABC.
Proof.
  apply (merge_order_of_inputs [run_A; run_B; run_C] [run_C; run_A; run_B]).
  - change [run_C; run_A; run_B] with ([run_C] ++ [run_A; run_B]).
    change [run_A; run_B; run_C] with ([run_A; run_B] ++ [run_C]).
    apply Permutation_app_comm.
  - reflexivity.
Defined.

End Bench.

(** ** src/benchmark/base.py, with the interpreter's doubles

    [finalize] once more, this time with Python's numbers as the
    interpreter has them: [int] is unbounded, [float] is IEEE 754 binary64
    (the standard library's [SpecFloat] at precision 53 and maximal
    exponent 1024), and [/] is true division, which rounds the exact
    quotient to the nearest double, ties to even.  This is the level at
    which a quotient can vanish. *)
Module Bench64.

Definition prec : Z := 53.
Definition emax : Z := 1024.

Definition float : Type := spec_float.

Inductive exn :=
| ZeroDivisionError
| OverflowError.

Inductive result (A : Type) :=
| Ok (a : A)
| Raise (e : exn).
Arguments Ok {A} a.
Arguments Raise {A} e.

(** A result too large for a double is an [OverflowError]. *)
Definition or_overflow (x : float) : result float :=
  match x with
  | S754_infinity _ => Raise OverflowError
  | _ => Ok x
  end.

(** [float(z)], the conversion [int / float] starts with. *)
Definition float_of_int (z : Z) : result float :=
  or_overflow (binary_normalize prec emax z 0 false).

Definition float_is_zero (x : float) : bool :=
  match x with
  | S754_zero _ => true
  | _ => false
  end.

(** [a / b] on two doubles: a zero divisor of either sign raises, anything
    else is the IEEE quotient (an infinity or a NaN included). *)
Definition float_truediv (a b : float) : result float :=
  if float_is_zero b then Raise ZeroDivisionError
  else Ok (SFdiv prec emax a b).

(** [a / b] on two [int]s: the exact quotient, rounded once; a quotient
    below the doubles is a zero with the quotient's sign, one above them an
    [OverflowError]. *)
Definition int_truediv (a b : Z) : result float :=
  if b =? 0 then Raise ZeroDivisionError
  else
    match a with
    | 0 => Ok (S754_zero (b <? 0))
    | _ =>
        or_overflow (SFdiv prec emax (S754_finite (a <? 0) (Z.to_pos (Z.abs a)) 0)
                                     (S754_finite (b <? 0) (Z.to_pos (Z.abs b)) 0))
    end.

(** What [finalize] may be given: the annotation says [int], callers pass
    the seconds of a clock, a [float]. *)
Inductive number :=
| PyInt (z : Z)
| PyFloat (x : float).

(** [a / b] for an [int] [a]. *)
Definition truediv (a : Z) (b : number) : result float :=
  match b with
  | PyInt z => int_truediv a z
  | PyFloat y =>
      match float_of_int a with
      | Raise e => Raise e
      | Ok x => float_truediv x y
      end
  end.

Record Benchmark := mkBenchmark {
  latencies : list float;
  throughput : float
}.

Definition num_runs (self : Benchmark) : nat := length (latencies self).

Definition finalize (self : Benchmark) (benchmark_duration : number)
  : result Benchmark :=
  match truediv (Z.of_nat (num_runs self)) benchmark_duration with
  | Raise e => Raise e
  | Ok t => Ok (mkBenchmark (latencies self) t)
  end.

(** [b.throughput > 0.], the test of [merge]'s second assertion. *)
Definition gt0 (t : float) : bool := SFltb (S754_zero false) t.

(** *** Rounding *)

(** One [shr_fexp] on the mantissa and the exponent. *)
Definition shifted (m e : Z) : Z * Z :=
  let k := fexp prec emax (Zdigits2 m + e) - e in
  if 0 <? k then (m / 2 ^ k, e + k) else (m, e).

(** What [binary_round_aux] makes of the final mantissa and exponent. *)
Definition classify (s : bool) (m e : Z) : spec_float :=
  match m with
  | 0 => S754_zero s
  | Z.pos p => if e <=? emax - prec then S754_finite s p e else S754_infinity s
  | Z.neg _ => S754_nan
  end.

(** [d > 0]. *)
Definition positive_duration (d : number) : Prop :=
  match d with
  | PyInt z => 0 < z
  | PyFloat y => SFltb (S754_zero false) y = true
  end.

(** A [float] is a double: its mantissa and exponent are those of a
    binary64 value. *)
Definition is_number (d : number) : Prop :=
  match d with
  | PyInt _ => True
  | PyFloat y => valid_binary prec emax y = true
  end.

(** The durations for which [n / d] is at most half the smallest positive
    double: the infinite one, and the [int]s from [n * 2 ** 1075] on. *)
Definition vanishes (n : Z) (d : number) : bool :=
  match d with
  | PyInt z => n * 2 ^ 1075 <=? z
  | PyFloat (S754_infinity _) => true
  | PyFloat _ => false
  end.

(** The three samples of the specification's example, 0.1, 0.2 and 0.2, and
    the doubles 2.0, 1.5, 0.0 and [float('inf')]. *)
Definition three_samples : Benchmark :=
  mkBenchmark [S754_finite false 7205759403792794 (-56);
               S754_finite false 7205759403792794 (-55);
               S754_finite false 7205759403792794 (-55)]
              (S754_infinity true).

Definition float_two : float := S754_finite false 4503599627370496 (-51).
Definition float_one_and_a_half : float :=
  S754_finite false 6755399441055744 (-52).
Definition float_zero : float := S754_zero false.
Definition float_inf : float := S754_infinity false.

(** The number of binary digits of a mantissa. *)
Lemma digits2_pos_size p : digits2_pos p = Pos.size p.
Proof. induction p; simpl; congruence. Qed.

Lemma Zdigits2_bounds m :
  0 < m → 2 ^ (Zdigits2 m - 1) ≤ m < 2 ^ Zdigits2 m.
Proof.
  destruct m as [|p|p]; try lia. intros _. simpl Zdigits2.
  rewrite digits2_pos_size.
  pose proof (Pos.size_gt p) as Hgt. pose proof (Pos.size_le p) as Hle.
  split.
  - assert (H : 2 ^ Z.pos (Pos.size p) ≤ 2 * Z.pos p).
    { change (2 * Z.pos p) with (Z.pos p~0). rewrite <- Pos2Z.inj_pow. lia. }
    replace (Z.pos (Pos.size p)) with (Z.succ (Z.pos (Pos.size p) - 1)) in H by lia.
    rewrite Z.pow_succ_r in H by lia. lia.
  - change 2 with (Z.pos 2). rewrite <- Pos2Z.inj_pow. lia.
Qed.

Lemma Zdigits2_pos m : 0 < m → 0 < Zdigits2 m.
Proof. destruct m; simpl; lia. Qed.

Lemma Zdigits2_le m d : 0 < m → m < 2 ^ d → Zdigits2 m ≤ d.
Proof.
  intros Hm Hd. pose proof (Zdigits2_bounds m Hm) as [Hlo _].
  pose proof (Zdigits2_pos m Hm).
  destruct (Z.le_gt_cases (Zdigits2 m) d) as [|Hgt]; [assumption|exfalso].
  assert (0 ≤ d).
  { destruct (Z.le_gt_cases 0 d); [assumption|].
    rewrite Z.pow_neg_r in Hd by lia. lia. }
  assert (2 ^ d ≤ 2 ^ (Zdigits2 m - 1)) by (apply Z.pow_le_mono_r; lia).
  lia.
Qed.

Lemma Zdigits2_ge m d : 0 ≤ d → 2 ^ d ≤ m → d < Zdigits2 m.
Proof.
  intros Hd Hm.
  assert (0 < m) by (pose proof (Z.pow_pos_nonneg 2 d); lia).
  pose proof (Zdigits2_bounds m H) as [_ Hhi].
  pose proof (Zdigits2_pos m H).
  apply (Z.pow_lt_mono_r_iff 2); lia.
Qed.

Lemma Zdigits2_mono m n : 0 < m → m ≤ n → Zdigits2 m ≤ Zdigits2 n.
Proof.
  intros Hm Hn. pose proof (Zdigits2_bounds m Hm) as [Hlo _].
  pose proof (Zdigits2_pos m Hm).
  assert (Zdigits2 m - 1 < Zdigits2 n) by (apply Zdigits2_ge; lia). lia.
Qed.

(** Right shifts of a mantissa that is not negative are divisions by powers
    of two. *)
Lemma shr_1_m mrs : 0 ≤ shr_m mrs → shr_m (shr_1 mrs) = shr_m mrs / 2.
Proof.
  destruct mrs as [m r s]. simpl. intros Hm.
  destruct m as [|[p|p|]|p]; simpl; try lia;
    first [reflexivity | apply Z.div_unique with 1; lia | apply Z.div_unique with 0; lia].
Qed.

Lemma iter_pos_shr_m p : ∀ mrs,
  0 ≤ shr_m mrs → shr_m (SpecFloat.iter_pos shr_1 p mrs) = shr_m mrs / 2 ^ Z.pos p.
Proof.
  assert (Hnn : ∀ mrs, 0 ≤ shr_m mrs → 0 ≤ shr_m (shr_1 mrs)).
  { intros mrs H. rewrite shr_1_m by exact H. apply Z.div_pos; lia. }
  assert (Hpow : ∀ q, 0 < 2 ^ Z.pos q) by (intros q; apply Z.pow_pos_nonneg; lia).
  induction p as [p IH|p IH|]; intros mrs Hm; simpl SpecFloat.iter_pos.
  - assert (H1 := Hnn _ Hm).
    assert (H2 : 0 ≤ shr_m (SpecFloat.iter_pos shr_1 p (shr_1 mrs))).
    { rewrite IH by exact H1. apply Z.div_pos; [exact H1 | apply Hpow]. }
    rewrite IH by exact H2. rewrite IH by exact H1. rewrite shr_1_m by exact Hm.
    assert (E : 2 ^ Z.pos p~1 = 2 * (2 ^ Z.pos p * 2 ^ Z.pos p)).
    { rewrite <- Z.pow_add_r, <- Z.pow_succ_r by lia. f_equal. lia. }
    rewrite E, !Z.div_div; [reflexivity | | | |]; pose proof (Hpow p); lia.
  - assert (H2 : 0 ≤ shr_m (SpecFloat.iter_pos shr_1 p mrs)).
    { rewrite IH by exact Hm. apply Z.div_pos; [exact Hm | apply Hpow]. }
    rewrite IH by exact H2. rewrite IH by exact Hm.
    assert (E : 2 ^ Z.pos p~0 = 2 ^ Z.pos p * 2 ^ Z.pos p).
    { rewrite <- Z.pow_add_r by lia. f_equal. lia. }
    rewrite E, Z.div_div; [reflexivity | |]; pose proof (Hpow p); lia.
  - rewrite shr_1_m by exact Hm. reflexivity.
Qed.

Lemma shr_record_of_loc_m m l : shr_m (shr_record_of_loc m l) = m.
Proof. destruct l as [|[]]; reflexivity. Qed.

(** What [shr_fexp] leaves of a mantissa that is not negative. *)
Lemma shr_fexp_spec m e l :
  0 ≤ m →
  let k := fexp prec emax (Zdigits2 m + e) - e in
  shr_m (fst (shr_fexp prec emax m e l)) = (if 0 <? k then m / 2 ^ k else m)
  ∧ snd (shr_fexp prec emax m e l) = (if 0 <? k then e + k else e).
Proof.
  intros Hm k. unfold shr_fexp, shr. fold k.
  destruct k as [|p|p] eqn:Hk; simpl; rewrite ?shr_record_of_loc_m; auto.
  rewrite iter_pos_shr_m by (rewrite shr_record_of_loc_m; exact Hm).
  rewrite shr_record_of_loc_m. auto.
Qed.

Lemma round_nearest_even_bounds m l :
  m ≤ round_nearest_even m l ≤ m + 1.
Proof.
  destruct l as [|[]]; simpl; try lia. destruct (Z.even m); lia.
Qed.

Lemma fexp_eq v : fexp prec emax v = Z.max (v - 53) (-1074).
Proof. reflexivity. Qed.

Lemma shifted_nonneg m e : 0 ≤ m → 0 ≤ fst (shifted m e).
Proof.
  intros Hm. unfold shifted. destruct (Z.ltb_spec 0 (fexp prec emax (Zdigits2 m + e) - e));
    simpl; [|exact Hm].
  apply Z.div_pos; [exact Hm|]. apply Z.pow_pos_nonneg; lia.
Qed.

Lemma shr_fexp_shifted m e l :
  0 ≤ m →
  (shr_m (fst (shr_fexp prec emax m e l)), snd (shr_fexp prec emax m e l))
    = shifted m e.
Proof.
  intros Hm. destruct (shr_fexp_spec m e l Hm) as [H1 H2].
  unfold shifted. rewrite H1, H2.
  destruct (0 <? _); reflexivity.
Qed.

Lemma binary_round_aux_spec s m e l :
  0 ≤ m →
  ∃ m2, fst (shifted m e) ≤ m2 ≤ fst (shifted m e) + 1
        ∧ binary_round_aux prec emax s m e l
            = classify s (fst (shifted m2 (snd (shifted m e))))
                         (snd (shifted m2 (snd (shifted m e)))).
Proof.
  intros Hm. unfold binary_round_aux.
  pose proof (shr_fexp_shifted m e l Hm) as H1.
  destruct (shr_fexp prec emax m e l) as [mrs1 e1]. simpl in H1.
  set (m2 := round_nearest_even (shr_m mrs1) (loc_of_shr_record mrs1)).
  exists m2.
  assert (Hm1 : 0 ≤ shr_m mrs1).
  { replace (shr_m mrs1) with (fst (shifted m e)) by (rewrite <- H1; reflexivity).
    apply shifted_nonneg, Hm. }
  pose proof (round_nearest_even_bounds (shr_m mrs1) (loc_of_shr_record mrs1)) as Hr.
  fold m2 in Hr.
  rewrite <- H1. simpl. split; [exact Hr|].
  assert (Hm2 : 0 ≤ m2) by lia.
  pose proof (shr_fexp_shifted m2 e1 loc_Exact Hm2) as H2.
  destruct (shr_fexp prec emax m2 e1 loc_Exact) as [mrs2 e2]. simpl in H2.
  rewrite <- H2. reflexivity.
Qed.

(** A mantissa whose magnitude is above the smallest exponent survives the
    shift, and so does whatever is not smaller. *)
Lemma shifted_pos m e :
  0 < m → -1074 < Zdigits2 m + e →
  0 < fst (shifted m e)
  ∧ ∀ m2, fst (shifted m e) ≤ m2 → -1074 < Zdigits2 m2 + snd (shifted m e).
Proof.
  intros Hm HV. unfold shifted. rewrite fexp_eq.
  pose proof (Zdigits2_bounds m Hm) as [Hlo Hhi].
  pose proof (Zdigits2_pos m Hm) as Hd.
  destruct (Z.ltb_spec 0 (Z.max (Zdigits2 m + e - 53) (-1074) - e)) as [Hk|Hk]; simpl.
  - set (k := Z.max (Zdigits2 m + e - 53) (-1074) - e) in *.
    assert (Hkd : k ≤ Zdigits2 m - 1) by lia.
    assert (H1 : 1 ≤ m / 2 ^ k).
    { apply Z.div_le_lower_bound; [apply Z.pow_pos_nonneg; lia|].
      rewrite Z.mul_1_r. etransitivity; [|exact Hlo].
      apply Z.pow_le_mono_r; lia. }
    split; [lia|]. intros m2 Hm2.
    assert (0 < Zdigits2 m2) by (apply Zdigits2_pos; lia). lia.
  - split; [exact Hm|]. intros m2 Hm2.
    pose proof (Zdigits2_mono m m2 Hm Hm2). lia.
Qed.

Lemma Zdigits2_succ m : 0 ≤ m → Zdigits2 (m + 1) ≤ Zdigits2 m + 1.
Proof.
  intros Hm. destruct (Z.eq_dec m 0) as [->|Hne]; [simpl; lia|].
  assert (H0 : 0 < m) by lia.
  pose proof (Zdigits2_bounds m H0) as [_ Hhi].
  pose proof (Zdigits2_pos m H0).
  apply Zdigits2_le; [lia|]. rewrite Z.pow_add_r by lia. lia.
Qed.

Lemma Zdigits2_nonneg m : 0 ≤ Zdigits2 m.
Proof. destruct m; simpl; lia. Qed.

Lemma shifted_bound m e :
  0 ≤ m → e ≤ 971 → Zdigits2 m + e ≤ 1023 →
  snd (shifted m e) ≤ 971
  ∧ ∀ m2, 0 ≤ m2 ≤ fst (shifted m e) + 1 → Zdigits2 m2 + snd (shifted m e) ≤ 1024.
Proof.
  intros Hm He HV. unfold shifted. rewrite fexp_eq.
  destruct (Z.ltb_spec 0 (Z.max (Zdigits2 m + e - 53) (-1074) - e)) as [Hk|Hk]; simpl.
  - set (k := Z.max (Zdigits2 m + e - 53) (-1074) - e) in *.
    split; [lia|]. intros m2 Hm2.
    destruct (Z.eq_dec m2 0) as [->|Hne]; [simpl; lia|].
    assert (Hq : Zdigits2 m2 ≤ Z.max 1 (Zdigits2 m - k + 1)).
    { apply Zdigits2_le; [lia|].
      destruct (Z.eq_dec m 0) as [->|Hm0].
      - rewrite Z.div_0_l in Hm2 by (apply Z.pow_nonzero; lia).
        assert (2 ^ 1 ≤ 2 ^ Z.max 1 (0 - k + 1)) by (apply Z.pow_le_mono_r; lia).
        simpl in *. lia.
      - pose proof (Zdigits2_bounds m ltac:(lia)) as [_ Hhi].
        destruct (Z.le_gt_cases k (Zdigits2 m)) as [Hle|Hgt].
        + assert (m / 2 ^ k < 2 ^ (Zdigits2 m - k)).
          { apply Z.div_lt_upper_bound; [apply Z.pow_pos_nonneg; lia|].
            rewrite <- Z.pow_add_r by lia.
            replace (k + (Zdigits2 m - k)) with (Zdigits2 m) by lia. exact Hhi. }
          assert (2 ^ (Zdigits2 m - k + 1) ≤ 2 ^ Z.max 1 (Zdigits2 m - k + 1))
            by (apply Z.pow_le_mono_r; lia).
          rewrite Z.pow_add_r in H0 by lia. lia.
        + assert (m / 2 ^ k = 0).
          { apply Z.div_small. split; [lia|].
            eapply Z.lt_le_trans; [exact Hhi|]. apply Z.pow_le_mono_r; lia. }
          assert (2 ^ 1 ≤ 2 ^ Z.max 1 (Zdigits2 m - k + 1)) by (apply Z.pow_le_mono_r; lia).
          simpl in *. lia. }
    lia.
  - split; [lia|]. intros m2 Hm2.
    destruct (Z.eq_dec m2 0) as [->|Hne]; [simpl; lia|].
    pose proof (Zdigits2_mono m2 (m + 1) ltac:(lia) ltac:(lia)).
    pose proof (Zdigits2_succ m Hm). lia.
Qed.

Lemma classify_cases s m e :
  0 ≤ m →
  classify s m e = S754_zero s
  ∨ (∃ p e', classify s m e = S754_finite s p e')
  ∨ classify s m e = S754_infinity s.
Proof.
  intros Hm. unfold classify. destruct m as [|p|p]; [auto| |lia].
  destruct (e <=? emax - prec); eauto.
Qed.

(** Rounding keeps the sign and never yields a NaN. *)
Lemma binary_round_aux_sign s m e l :
  0 ≤ m →
  binary_round_aux prec emax s m e l = S754_zero s
  ∨ (∃ p e', binary_round_aux prec emax s m e l = S754_finite s p e')
  ∨ binary_round_aux prec emax s m e l = S754_infinity s.
Proof.
  intros Hm. destruct (binary_round_aux_spec s m e l Hm) as (m2 & Hm2 & ->).
  apply classify_cases, shifted_nonneg.
  pose proof (shifted_nonneg m e Hm). lia.
Qed.

(** No underflow to zero. *)
Lemma binary_round_aux_nonzero s m e l :
  0 < m → -1074 < Zdigits2 m + e →
  (∃ p e', binary_round_aux prec emax s m e l = S754_finite s p e')
  ∨ binary_round_aux prec emax s m e l = S754_infinity s.
Proof.
  intros Hm HV.
  destruct (binary_round_aux_spec s m e l ltac:(lia)) as (m2 & Hm2 & ->).
  destruct (shifted_pos m e Hm HV) as [H1 H2].
  destruct (shifted_pos m2 (snd (shifted m e)) ltac:(lia) (H2 m2 ltac:(lia))) as [H3 _].
  unfold classify. destruct (fst (shifted m2 _)) as [|p|p]; try lia.
  destruct (_ <=? _); eauto.
Qed.

(** No overflow. *)
Lemma binary_round_aux_finite s m e l :
  0 ≤ m → e ≤ 971 → Zdigits2 m + e ≤ 1023 →
  binary_round_aux prec emax s m e l ≠ S754_infinity s.
Proof.
  intros Hm He HV.
  destruct (binary_round_aux_spec s m e l Hm) as (m2 & Hm2 & ->).
  destruct (shifted_bound m e Hm He HV) as [H1 H2].
  pose proof (shifted_nonneg m e Hm) as H0.
  specialize (H2 m2 ltac:(lia)).
  assert (He3 : snd (shifted m2 (snd (shifted m e))) ≤ 971).
  { unfold shifted at 1. rewrite fexp_eq. destruct (0 <? _); simpl; lia. }
  unfold classify. destruct (fst (shifted m2 _)); try discriminate.
  destruct (Z.leb_spec (snd (shifted m2 (snd (shifted m e)))) (emax - prec)) as [|Hgt];
    [discriminate|]. unfold emax, prec in Hgt. lia.
Qed.

(** The quotient of two finite doubles: the integer quotient of the
    mantissas, the dividend shifted left far enough, rounded once with the
    remainder telling on which side of a half it lies. *)
Lemma SFdiv_finite sx mx ex sy my ey :
  let e' := Z.min (fexp prec emax (Zdigits2 (Z.pos mx) + ex - (Zdigits2 (Z.pos my) + ey)))
                  (ex - ey) in
  let m' := Z.pos mx * 2 ^ (ex - ey - e') in
  SFdiv prec emax (S754_finite sx mx ex) (S754_finite sy my ey)
    = binary_round_aux prec emax (xorb sx sy) (m' / Z.pos my) e'
        (new_location (Z.pos my) (m' mod Z.pos my)).
Proof.
  intros e' m0. unfold SFdiv, SFdiv_core_binary. fold e'.
  assert (Hs : 0 ≤ ex - ey - e') by (unfold e'; lia).
  unfold m0. clear m0. set (s := ex - ey - e') in *.
  set (m' := match s with Z.pos _ => Z.shiftl (Z.pos mx) s | 0 => Z.pos mx | Z.neg _ => 0 end).
  assert (Hm' : m' = Z.pos mx * 2 ^ s).
  { unfold m'. destruct s as [|p|p]; [lia | | lia].
    apply Z.shiftl_mul_pow2. lia. }
  rewrite <- Hm'. unfold Z.div, Z.modulo.
  destruct (Z.div_eucl m' (Z.pos my)) as [q r]. reflexivity.
Qed.

(** Rounding what lies below the smallest positive double. *)
Lemma binary_round_aux_tiny s l :
  binary_round_aux prec emax s 0 (-1074) l
    = match l with
      | loc_Inexact Gt => S754_finite s 1 (-1074)
      | _ => S754_zero s
      end.
Proof. destruct l as [|[]]; reflexivity. Qed.

Lemma new_location_half z r :
  0 < r < z →
  new_location z r = loc_Inexact Gt ↔ z < 2 * r.
Proof.
  intros Hr. unfold new_location.
  assert (Hr0 : (r =? 0) = false) by (apply Z.eqb_neq; lia).
  destruct (Z.even z) eqn:Hev;
    unfold new_location_even, new_location_odd; rewrite Hr0.
  - destruct (Z.compare_spec (2 * r) z); split; intros H';
      first [discriminate | lia | reflexivity].
  - destruct (Z.compare_spec (2 * r + 1) z) as [Heq|Hlt|Hgt];
      split; intros H'; try discriminate; try lia; try reflexivity.
    destruct (Z.eq_dec z (2 * r)) as [->|Hne]; [|lia].
    rewrite Z.even_mul in Hev. discriminate.
Qed.

Lemma digits2_pos_iter_xO p d :
  digits2_pos (Pos.iter xO p d) = (digits2_pos p + d)%positive.
Proof.
  induction d as [|d IH] using Pos.peano_ind.
  - simpl. lia.
  - rewrite Pos.iter_succ. simpl. rewrite IH. lia.
Qed.

(** An [int] below [2 ** 53] converts to the double of the same value, with
    a full mantissa. *)
Lemma float_of_int_small n :
  1 ≤ n < 2 ^ 53 →
  ∃ mx ex, float_of_int n = Ok (S754_finite false mx ex)
           ∧ Zdigits2 (Z.pos mx) = 53 ∧ -52 ≤ ex ≤ 0.
Proof.
  intros Hn. destruct n as [|p|p]; try lia.
  unfold float_of_int, binary_normalize, binary_round.
  pose proof (Zdigits2_bounds (Z.pos p) ltac:(lia)) as [Hlo Hhi].
  pose proof (Zdigits2_le (Z.pos p) 53 ltac:(lia) ltac:(lia)) as Hd.
  simpl Zdigits2 in *.
  assert (Hf : fexp prec emax (Z.pos (digits2_pos p) + 0) = Z.pos (digits2_pos p) - 53)
    by (rewrite fexp_eq; lia).
  rewrite Hf. unfold shl_align.
  assert (Hround : ∀ mz ez, Z.pos (digits2_pos mz) = 53 → -52 ≤ ez ≤ 0 →
            binary_round_aux prec emax false (Z.pos mz) ez loc_Exact
              = S754_finite false mz ez).
  { intros mz ez Hmz Hez. unfold binary_round_aux, shr_fexp. simpl Zdigits2.
    assert (Hk : fexp prec emax (Z.pos (digits2_pos mz) + ez) - ez = 0)
      by (rewrite fexp_eq; lia).
    rewrite Hk. simpl. rewrite Hk. simpl.
    destruct (Z.leb_spec ez (emax - prec)) as [|Hgt]; [reflexivity|].
    unfold emax, prec in Hgt. lia. }
  destruct (Z.pos (digits2_pos p) - 53 - 0) as [|d|d] eqn:Hsub; try lia.
  - rewrite Hround by lia. exists p, 0. split; [|simpl; lia].
    replace (Z.pos (digits2_pos p) - 53) with 0 by lia. reflexivity.
  - assert (Hmz : Z.pos (digits2_pos (Pos.iter xO p d)) = 53).
    { rewrite digits2_pos_iter_xO. lia. }
    rewrite Hround by lia.
    exists (Pos.iter xO p d), (Z.pos (digits2_pos p) - 53).
    split; [reflexivity|]. simpl. lia.
Qed.

Lemma gt0_finite p e : gt0 (S754_finite false p e) = true.
Proof. reflexivity. Qed.

Lemma gt0_infinity : gt0 (S754_infinity false) = true.
Proof. reflexivity. Qed.

Lemma bounded_inv my ey :
  bounded prec emax my ey = true →
  Zdigits2 (Z.pos my) ≤ 53 ∧ -1074 ≤ ey ≤ 971.
Proof.
  unfold bounded, canonical_mantissa. rewrite andb_true_iff, Z.eqb_eq, Z.leb_le.
  rewrite fexp_eq. unfold emax, prec. simpl Zdigits2. lia.
Qed.

(** A count of samples divided by a positive finite double. *)
Lemma truediv_finite_float n my ey :
  1 ≤ n < 2 ^ 53 →
  bounded prec emax my ey = true →
  ∃ t, truediv n (PyFloat (S754_finite false my ey)) = Ok t ∧ gt0 t = true.
Proof.
  intros Hn Hb. unfold truediv.
  destruct (float_of_int_small n Hn) as (mx & ex & -> & Hdx & Hex).
  destruct (bounded_inv my ey Hb) as [Hdy Hey].
  unfold float_truediv. simpl float_is_zero. cbv iota.
  eexists. split; [reflexivity|].
  rewrite SFdiv_finite. simpl xorb.
  set (l := new_location _ _).
  pose proof (Zdigits2_bounds (Z.pos mx) ltac:(lia)) as [Hxlo _].
  pose proof (Zdigits2_bounds (Z.pos my) ltac:(lia)) as [_ Hyhi].
  pose proof (Zdigits2_pos (Z.pos my) ltac:(lia)) as Hdy0.
  rewrite Hdx in *. change (2 ^ (53 - 1)) with (2 ^ 52) in Hxlo.
  set (d2 := Zdigits2 (Z.pos my)) in *.
  set (e' := Z.min (fexp prec emax (53 + ex - (d2 + ey))) (ex - ey)).
  set (s := ex - ey - e').
  set (q := Z.pos mx * 2 ^ s / Z.pos my).
  assert (Hy53 : Z.pos my < 2 ^ 53).
  { eapply Z.lt_le_trans; [exact Hyhi|]. apply Z.pow_le_mono_r; lia. }
  assert (Hcase : (e' = -1074 ∧ 51 ≤ s) ∨ (e' = ex - ey - d2 ∧ s = d2 ∧ -1074 ≤ e')).
  { unfold s, e'. rewrite fexp_eq. lia. }
  assert (Hq : 1 ≤ q ∧ -1074 < Zdigits2 q + e').
  { destruct Hcase as [(He' & Hs51) | (He' & Hsd & Hmin)].
    - assert (H1 : 1 ≤ q).
      { unfold q. apply Z.div_le_lower_bound; [lia|]. rewrite Z.mul_1_r.
        assert (2 ^ 51 ≤ 2 ^ s) by (apply Z.pow_le_mono_r; lia).
        assert (2 ^ 52 * 2 ^ 51 ≤ Z.pos mx * 2 ^ s) by (apply Z.mul_le_mono_nonneg; lia).
        change (2 ^ 52 * 2 ^ 51) with (2 ^ 103) in *.
        assert (2 ^ 53 < 2 ^ 103) by reflexivity. lia. }
      split; [exact H1|].
      pose proof (Zdigits2_pos q ltac:(lia)). lia.
    - assert (H1 : 2 ^ 52 ≤ q).
      { unfold q. apply Z.div_le_lower_bound; [lia|]. rewrite Hsd.
        rewrite Z.mul_comm. apply Z.mul_le_mono_nonneg; try lia. }
      split; [pose proof (Z.pow_pos_nonneg 2 52); lia|].
      pose proof (Zdigits2_ge q 52 ltac:(lia) H1). lia. }
  destruct Hq as [Hq1 HqV].
  destruct (binary_round_aux_nonzero false q e' l ltac:(lia) HqV) as [(p & e'' & ->) | ->];
    reflexivity.
Qed.

(** A count of samples divided by a positive [int]. *)
Lemma truediv_pos_int n z :
  1 ≤ n < 2 ^ 53 → 0 < z →
  ∃ t, truediv n (PyInt z) = Ok t
       ∧ (t = S754_zero false ∨ ∃ p e, t = S754_finite false p e)
       ∧ (t = S754_zero false ↔ n * 2 ^ 1075 ≤ z).
Proof.
  intros Hn Hz. unfold truediv, int_truediv.
  destruct (Z.eqb_spec z 0) as [|_]; [lia|].
  destruct n as [|pn|pn]; try lia. destruct z as [|pz|pz]; try lia.
  change (Z.pos pn <? 0) with false. change (Z.pos pz <? 0) with false.
  simpl Z.abs. simpl Z.to_pos.
  rewrite SFdiv_finite. simpl xorb.
  pose proof (Zdigits2_bounds (Z.pos pn) ltac:(lia)) as [Hnlo Hnhi].
  pose proof (Zdigits2_bounds (Z.pos pz) ltac:(lia)) as [Hzlo Hzhi].
  pose proof (Zdigits2_pos (Z.pos pn) ltac:(lia)) as Hdn0.
  pose proof (Zdigits2_pos (Z.pos pz) ltac:(lia)) as Hdz0.
  pose proof (Zdigits2_le (Z.pos pn) 53 ltac:(lia) ltac:(lia)) as Hdn.
  set (dn := Zdigits2 (Z.pos pn)) in *. set (dz := Zdigits2 (Z.pos pz)) in *.
  set (e' := Z.min (fexp prec emax (dn + 0 - (dz + 0))) (0 - 0)).
  set (s := 0 - 0 - e').
  set (l := new_location _ _).
  set (q := Z.pos pn * 2 ^ s / Z.pos pz).
  assert (H1075 : 2 ^ 1075 = 2 * 2 ^ 1074) by reflexivity.
  assert (Hp1074 : 0 < 2 ^ 1074) by reflexivity.
  assert (Hcase : (e' = -1074 ∧ s = 1074)
                  ∨ (e' = dn - dz - 53 ∧ s = 53 - dn + dz ∧ -1074 ≤ e')).
  { unfold s, e'. rewrite fexp_eq. lia. }
  assert (Hs0 : 0 ≤ s ∧ e' = - s) by (unfold s; lia).
  assert (Hq0 : 0 ≤ q).
  { unfold q. apply Z.div_pos; [|lia]. pose proof (Z.pow_pos_nonneg 2 s). lia. }
  assert (Hfin : binary_round_aux prec emax false q e' l ≠ S754_infinity false).
  { apply binary_round_aux_finite; [exact Hq0 | lia |].
    destruct (Z.eq_dec q 0) as [->|Hq]; [simpl; lia|].
    assert (Hqs : q < 2 ^ (53 + s)).
    { unfold q. apply Z.div_lt_upper_bound; [lia|].
      rewrite Z.pow_add_r by lia.
      assert (0 < 2 ^ s) by (apply Z.pow_pos_nonneg; lia).
      nia. }
    pose proof (Zdigits2_le q (53 + s) ltac:(lia) Hqs). lia. }
  assert (Hshape : ∀ t, t ≠ S754_infinity false →
            (t = S754_zero false ∨ ∃ p e, t = S754_finite false p e) →
            (t = S754_zero false ↔ Z.pos pn * 2 ^ 1075 ≤ Z.pos pz) →
            ∃ t', or_overflow t = Ok t'
                  ∧ (t' = S754_zero false ∨ ∃ p e, t' = S754_finite false p e)
                  ∧ (t' = S754_zero false ↔ Z.pos pn * 2 ^ 1075 ≤ Z.pos pz)).
  { intros t Hinf Hsh Hiff. exists t.
    destruct Hsh as [-> | (p & e & ->)]; (split; [reflexivity|]); split; eauto. }
  apply Hshape; [exact Hfin | |].
  { destruct (binary_round_aux_sign false q e' l Hq0) as [H | [H | H]];
      [auto | auto | contradiction]. }
  destruct (Z.le_gt_cases (Z.pos pz) (Z.pos pn * 2 ^ 1074)) as [Hle|Hgt].
  - (* the quotient reaches the smallest positive double *)
    assert (Hq : 1 ≤ q ∧ -1074 < Zdigits2 q + e').
    { destruct Hcase as [(He' & Hs) | (He' & Hs & Hmin)].
      - assert (H1 : 1 ≤ q).
        { unfold q. apply Z.div_le_lower_bound; [lia|]. rewrite Hs. lia. }
        split; [exact H1|]. pose proof (Zdigits2_pos q ltac:(lia)). lia.
      - assert (H1 : 2 ^ 52 ≤ q).
        { unfold q. apply Z.div_le_lower_bound; [lia|]. rewrite Hs.
          replace (53 - dn + dz) with ((53 - dn) + dz) by lia.
          rewrite Z.pow_add_r by lia.
          assert (2 ^ 52 ≤ Z.pos pn * 2 ^ (53 - dn)).
          { replace 52 with ((dn - 1) + (53 - dn)) by lia.
            rewrite Z.pow_add_r by lia.
            apply Z.mul_le_mono_nonneg_r; [apply Z.pow_nonneg; lia | exact Hnlo]. }
          assert (0 < 2 ^ dz) by (apply Z.pow_pos_nonneg; lia).
          nia. }
        split; [pose proof (Z.pow_pos_nonneg 2 52); lia|].
        pose proof (Zdigits2_ge q 52 ltac:(lia) H1). lia. }
    destruct Hq as [Hq1 HqV].
    destruct (binary_round_aux_nonzero false q e' l ltac:(lia) HqV)
      as [(p & e & ->) | H]; [|contradiction].
    split; [discriminate | lia].
  - (* the quotient is below the smallest positive double *)
    assert (Hdz : dn + 1073 < dz).
    { apply Zdigits2_ge; [lia|].
      replace (dn + 1073) with ((dn - 1) + 1074) by lia.
      rewrite Z.pow_add_r by lia. nia. }
    assert (He' : e' = -1074 ∧ s = 1074) by (unfold s, e'; rewrite fexp_eq; lia).
    destruct He' as [He' Hs].
    assert (Hq : q = 0).
    { unfold q. rewrite Hs. apply Z.div_small. lia. }
    assert (Hl : l = new_location (Z.pos pz) (Z.pos pn * 2 ^ 1074)).
    { unfold l. fold e'. fold s. rewrite Hs, Z.mod_small by lia. reflexivity. }
    rewrite Hq, He', binary_round_aux_tiny.
    pose proof (new_location_half (Z.pos pz) (Z.pos pn * 2 ^ 1074) ltac:(lia)) as Hhalf.
    rewrite <- Hl in Hhalf.
    destruct (Z.le_gt_cases (Z.pos pn * 2 ^ 1075) (Z.pos pz)) as [Hbig|Hsmall].
    + assert (Hne : l ≠ loc_Inexact Gt) by (rewrite Hhalf; lia).
      destruct l as [|[]]; try (split; [intros _; exact Hbig | reflexivity]).
      contradiction.
    + assert (Hgt' : l = loc_Inexact Gt) by (apply Hhalf; lia).
      rewrite Hgt'. split; [discriminate | lia].
Qed.

(** A count of samples divided by [float('inf')]. *)
Lemma truediv_infinite n :
  1 ≤ n < 2 ^ 53 → truediv n (PyFloat float_inf) = Ok float_zero.
Proof.
  intros Hn. unfold truediv.
  destruct (float_of_int_small n Hn) as (mx & ex & -> & _). reflexivity.
Qed.

Lemma positive_float_cases y :
  valid_binary prec emax y = true → SFltb (S754_zero false) y = true →
  y = float_inf ∨ ∃ my ey, y = S754_finite false my ey ∧ bounded prec emax my ey = true.
Proof.
  intros Hv Hpos. destruct y as [s|[]| |[] my ey]; try discriminate Hpos.
  - left. reflexivity.
  - right. exists my, ey. split; [reflexivity | exact Hv].
Qed.

(** *** [finalize] *)

(** C7, as stated, fails.  With three samples and a duration that is
    positive, [float('inf')] or the [int] [10 ** 400], [finalize] raises
    nothing and stores the throughput 0.0, which is not positive. *)
Lemma finalize_underflow_counterexample :
  num_runs three_samples = 3%nat
  ∧ positive_duration (PyFloat float_inf)
  ∧ finalize three_samples (PyFloat float_inf)
      = Ok (mkBenchmark (latencies three_samples) float_zero)
  ∧ positive_duration (PyInt (10 ^ 400))
  ∧ finalize three_samples (PyInt (10 ^ 400))
      = Ok (mkBenchmark (latencies three_samples) float_zero)
  ∧ gt0 float_zero = false
  ∧ ¬ (∀ b d, (0 < num_runs b)%nat → positive_duration d →
         ∃ t, finalize b d = Ok (mkBenchmark (latencies b) t) ∧ gt0 t = true).
Proof.
  split; [reflexivity|]. split; [reflexivity|]. split; [reflexivity|].
  split; [vm_compute; reflexivity|]. split; [vm_compute; reflexivity|].
  split; [reflexivity|].
  intros H.
  destruct (H three_samples (PyFloat float_inf)) as (t & Ht & Hpos);
    [vm_compute; lia | reflexivity |].
  vm_compute in Ht. injection Ht as <-. discriminate Hpos.
Qed.

(** C7, amended.  With at least one sample (and fewer than [2 ** 53], so
    that the count is a double) and a duration [d > 0], [finalize] raises
    nothing and stores [num_runs / d] as true division rounds it.  The
    stored throughput is never negative.  It is positive, and passes the
    [> 0.] test of [merge], unless the quotient rounds to zero, which it
    does for [float('inf')] and for an [int] from [num_runs * 2 ** 1075]
    on, and for no other duration: then the stored throughput is 0.0. *)
Theorem finalize_positive_unless_quotient_vanishes (b : Benchmark) (d : number) :
  (0 < num_runs b)%nat → Z.of_nat (num_runs b) < 2 ^ 53 →
  is_number d → positive_duration d →
  ∃ t, truediv (Z.of_nat (num_runs b)) d = Ok t
       ∧ finalize b d = Ok (mkBenchmark (latencies b) t)
       ∧ (gt0 t = true ∨ t = float_zero)
       ∧ if vanishes (Z.of_nat (num_runs b)) d
         then t = float_zero ∧ gt0 t = false
         else gt0 t = true.
Proof.
  intros Hn0 Hn53 Hd Hpos.
  assert (Hn : 1 ≤ Z.of_nat (num_runs b) < 2 ^ 53) by lia.
  set (n := Z.of_nat (num_runs b)) in *.
  assert (Hfin : ∀ t, truediv n d = Ok t →
            finalize b d = Ok (mkBenchmark (latencies b) t)).
  { intros t Ht. unfold finalize. fold n. rewrite Ht. reflexivity. }
  destruct d as [z|y]; simpl in Hd, Hpos.
  - destruct (truediv_pos_int n z Hn Hpos) as (t & Ht & Hshape & Hzero).
    exists t. split; [exact Ht|]. split; [apply Hfin, Ht|]. split.
    + destruct Hshape as [-> | (p & e & ->)]; [right | left]; reflexivity.
    + simpl vanishes. destruct (Z.leb_spec (n * 2 ^ 1075) z) as [Hle|Hlt].
      * apply Hzero in Hle. subst t. split; reflexivity.
      * destruct Hshape as [-> | (p & e & ->)]; [|reflexivity].
        assert (n * 2 ^ 1075 ≤ z) by (apply Hzero; reflexivity). lia.
  - destruct (positive_float_cases y Hd Hpos) as [-> | (my & ey & -> & Hb)].
    + exists float_zero. pose proof (truediv_infinite n Hn) as Ht.
      split; [exact Ht|]. split; [apply Hfin, Ht|]. split; [right; reflexivity|].
      split; reflexivity.
    + destruct (truediv_finite_float n my ey Hn Hb) as (t & Ht & Hgt).
      exists t. split; [exact Ht|]. split; [apply Hfin, Ht|]. split; [left; exact Hgt|].
      exact Hgt.
Qed.

(** The specification's example: latencies [0.1, 0.2, 0.2] and a duration of
    2.0 give the throughput 1.5. *)
Lemma finalize_positive_unless_quotient_vanishes_witness :
  finalize three_samples (PyFloat float_two)
    = Ok (mkBenchmark (latencies three_samples) float_one_and_a_half)
  ∧ gt0 float_one_and_a_half = true.
Proof.
  destruct (finalize_positive_unless_quotient_vanishes three_samples
              (PyFloat float_two))
    as (t & Ht & Hfin & _ & Hpos);
    [vm_compute; lia | reflexivity | reflexivity | reflexivity |].
  vm_compute in Ht. injection Ht as <-.
  split; [exact Hfin | exact Hpos].
Defined.

End Bench64.

(** ** optimum_benchmark/launchers/process/launcher.py *)
Module ProcessLauncher.

(** An exception raised by the worker, as the harness can observe it. *)
Record pyexc := mkExc {
  exc_class : string;        (* its class name *)
  exc_str : string;          (* [str(e)], the error's message *)
  exc_traceback : string;    (* [traceback.format_exc()] while it is handled *)
  exc_is_Exception : bool    (* [isinstance(e, Exception)]; false for
                                KeyboardInterrupt, SystemExit, ... *)
}.

(** The three states of the child. *)
Inductive phase :=
| AwaitingStart
| Running
| Terminated.

Section Process.

(** [BenchmarkReport] and its [to_dict] / [from_dict] live in
    [optimum_benchmark/report.py], which is not part of the sources at hand:
    they are parameters, and so is the way Python prints a payload. *)
Context {BenchmarkReport Payload Args : Type}.

(** Objects that travel through the pipe or sit in a response dict. *)
Inductive pyval :=
| PStr (s : string)
| PInt (n : Z)
| PNone
| PPayload (p : Payload).

Variable to_dict : BenchmarkReport → Payload.
Variable from_dict : pyval → BenchmarkReport.
Variable payload_str : Payload → string.

(** What the parent sends: [parent_connection.send("start")]. *)
Definition start_signal : pyval := PStr "start".

(** [response == "start"] *)
Definition is_start (response : pyval) : bool :=
  match response with
  | PStr s => String.eqb s "start"
  | _ => false
  end.

(** [f"{response}"] *)
Definition py_str (v : pyval) : string :=
  match v with
  | PStr s => s
  | PInt n => pretty n
  | PNone => "None"
  | PPayload p => payload_str p
  end.

(** The messages of the three [RuntimeError]s raised by [launch]. *)
Inductive runtime_error :=
| ExitedNonZero (code : Z)
    (* f"Isolated process exited with non-zero code {isolated_process.exitcode}" *)
| NoResponse
    (* "Isolated process did not send any response" *)
| UnexpectedResponse (response : gmap string pyval).
    (* f"Received an unexpected response from isolated process: {response}" *)

Inductive exn :=
| RuntimeError (msg : runtime_error)
| ChildProcessError (arg : pyval).

Inductive result (A : Type) :=
| Ok (a : A)
| Raise (e : exn).
Arguments Ok {A} a.
Arguments Raise {A} e.

(** *** The child: [target] *)

Inductive worker_outcome :=
| Returns (report : BenchmarkReport)
| Raises (e : pyexc).

(** The child process.  [inbox] holds what the parent has sent and the child
    has not read yet, [outbox] what the child has sent, oldest first.
    [received] and [worker_calls] record the history of the run: every value
    taken from the pipe, and how often the worker was entered. *)
Record child := mkChild {
  phase_ : phase;
  inbox : list pyval;
  outbox : list (gmap string pyval);
  received : list pyval;
  worker_calls : nat;
  closed : bool;
  exitcode : option Z
}.

(** [Process(target=target, ...).start()] *)
Definition spawn (pending : list pyval) : child :=
  mkChild AwaitingStart pending [] [] 0 false None.

(** [str(RuntimeError(f"Isolated process received an unexpected response: {response}"))] *)
Definition unexpected_text (response : pyval) : string :=
  "Isolated process received an unexpected response: " ++ py_str response.

Definition exception_message (text : string) : gmap string pyval :=
  {[ "exception"%string := PStr text ]}.

Definition traceback_message (text : string) : gmap string pyval :=
  {[ "traceback"%string := PStr text ]}.

Definition report_message (payload : Payload) : gmap string pyval :=
  {[ "report"%string := PPayload payload ]}.

(** What the [try] / [except Exception] / [else] sends. *)
Definition terminal_messages (o : worker_outcome) : list (gmap string pyval) :=
  match o with
  | Returns report => [report_message (to_dict report)]
  | Raises e =>
      if exc_is_Exception e then [traceback_message (exc_traceback e)]
      else []
  end.

(** One move of the child: an iteration of the [while True] loop, or the
    whole of the code after it ([try] ... [finally: connection.close();
    exit(0)]). *)
Definition target_step (worker : Args → worker_outcome) (worker_args : Args)
    (c : child) : child :=
  match phase_ c with
  | AwaitingStart =>
      match inbox c with
      | [] => c
      | response :: rest =>
          if is_start response then
            mkChild Running rest (outbox c) (received c ++ [response])
                    (worker_calls c) (closed c) (exitcode c)
          else
            mkChild AwaitingStart rest
                    (outbox c ++ [exception_message (unexpected_text response)])
                    (received c ++ [response])
                    (worker_calls c) (closed c) (exitcode c)
      end
  | Running =>
      mkChild Terminated (inbox c)
              (outbox c ++ terminal_messages (worker worker_args))
              (received c) (S (worker_calls c)) true (Some 0)
  | Terminated => c
  end.

(** [n] moves of the child. *)
Fixpoint target_run (worker : Args → worker_outcome) (worker_args : Args)
    (n : nat) (c : child) : child :=
  match n with
  | O => c
  | S n' => target_run worker worker_args n' (target_step worker worker_args c)
  end.

(** The parent writes [v] into the pipe. *)
Definition deliver (v : pyval) (c : child) : child :=
  mkChild (phase_ c) (inbox c ++ [v]) (outbox c) (received c)
          (worker_calls c) (closed c) (exitcode c).

(** Child and parent interleaved. *)
Inductive step (worker : Args → worker_outcome) (worker_args : Args)
  : child → child → Prop :=
| step_child c : step worker worker_args c (target_step worker worker_args c)
| step_parent c v : step worker worker_args c (deliver v c).

Inductive reachable (worker : Args → worker_outcome) (worker_args : Args)
  : child → Prop :=
| reachable_spawn : reachable worker worker_args (spawn [])
| reachable_step c c' :
    reachable worker worker_args c →
    step worker worker_args c c' →
    reachable worker worker_args c'.

(** *** The parent: [ProcessLauncher.launch]

    The part of [launch] after [isolated_process.join()]: [code] is
    [isolated_process.exitcode], [parent_connection] what is waiting in the
    parent's end of the pipe ([poll()] is true when it is not empty,
    [recv()] takes the oldest message). *)
Definition launch (code : Z) (parent_connection : list (gmap string pyval))
  : result BenchmarkReport :=
  if negb (Z.eqb code 0) then Raise (RuntimeError (ExitedNonZero code))
  else
    match parent_connection with
    | [] => Raise (RuntimeError NoResponse)
    | response :: _ =>
        match response !! "traceback"%string with
        | Some text => Raise (ChildProcessError text)
        | None =>
            match response !! "exception"%string with
            | Some text => Raise (ChildProcessError text)
            | None =>
                match response !! "report"%string with
                | Some payload => Ok (from_dict payload)
                | None => Raise (RuntimeError (UnexpectedResponse response))
                end
            end
        end
    end.

(** *** Properties of the child *)

Definition violation_reply (response : pyval) : gmap string pyval :=
  exception_message (unexpected_text response).

Lemma is_start_true v : is_start v = true ↔ v = start_signal.
Proof.
  unfold start_signal. destruct v as [s| | |]; simpl; try (split; discriminate).
  rewrite String.eqb_eq. split; congruence.
Qed.

(** What holds of the child in each state, whatever parent and child have
    done so far. *)
Definition harness_inv (c : child) : Prop :=
  match phase_ c with
  | AwaitingStart =>
      worker_calls c = 0%nat ∧ exitcode c = None ∧ closed c = false
      ∧ Forall (λ v, is_start v = false) (received c)
      ∧ outbox c = map violation_reply (received c)
  | Running =>
      worker_calls c = 0%nat ∧ exitcode c = None ∧ closed c = false
      ∧ start_signal ∈ received c
  | Terminated =>
      worker_calls c = 1%nat ∧ exitcode c = Some 0 ∧ closed c = true
      ∧ start_signal ∈ received c
  end.

Section Harness.

Variable worker : Args → worker_outcome.
Variable worker_args : Args.

Lemma harness_inv_target_step c :
  harness_inv c → harness_inv (target_step worker worker_args c).
Proof.
  unfold harness_inv, target_step.
  destruct (phase_ c) eqn:Hph.
  - intros (Hw & He & Hc & Hall & Hout).
    destruct (inbox c) as [|response rest]; [rewrite Hph; auto|].
    destruct (is_start response) eqn:Hs; simpl.
    + apply is_start_true in Hs. subst response.
      repeat split; try assumption. apply elem_of_app. right.
      apply list_elem_of_singleton. reflexivity.
    + repeat split; try assumption.
      * apply Forall_app. split; [assumption|]. repeat constructor. exact Hs.
      * rewrite map_app, Hout. reflexivity.
  - intros (Hw & He & Hc & Hin). simpl. rewrite Hw. auto.
  - rewrite Hph. auto.
Qed.

Lemma harness_inv_deliver v c : harness_inv c → harness_inv (deliver v c).
Proof. unfold harness_inv, deliver. simpl. auto. Qed.

Lemma harness_inv_reachable c :
  reachable worker worker_args c → harness_inv c.
Proof.
  induction 1 as [|c c' _ IH Hstep].
  - unfold harness_inv. simpl. repeat split; constructor.
  - destruct Hstep; [apply harness_inv_target_step | apply harness_inv_deliver];
      exact IH.
Qed.

Lemma is_start_false v : is_start v = false ↔ v ≠ start_signal.
Proof.
  rewrite <- is_start_true. destruct (is_start v); split; congruence.
Qed.

Lemma not_start_Forall vs :
  Forall (λ v, v ≠ start_signal) vs → Forall (λ v, is_start v = false) vs.
Proof.
  intros H. eapply Forall_impl; [exact H|].
  intros v Hv. apply is_start_false. exact Hv.
Qed.

(** The loop while the pipe yields no start signal: after [n] moves the
    first [n] values have been answered and the child is still waiting. *)
Lemma target_run_awaiting n : ∀ c,
  phase_ c = AwaitingStart →
  Forall (λ v, is_start v = false) (take n (inbox c)) →
  target_run worker worker_args n c
    = mkChild AwaitingStart (drop n (inbox c))
              (outbox c ++ map violation_reply (take n (inbox c)))
              (received c ++ take n (inbox c))
              (worker_calls c) (closed c) (exitcode c).
Proof.
  induction n as [|n IH]; intros c Hph Hall.
  - simpl. rewrite drop_0, take_0. simpl. rewrite !app_nil_r.
    destruct c; simpl in *; subst; reflexivity.
  - simpl target_run. unfold target_step at 1. rewrite Hph.
    destruct (inbox c) as [|response rest] eqn:Hin.
    + rewrite IH by (try rewrite Hin, take_nil; auto). rewrite Hin.
      rewrite !drop_nil, !take_nil. reflexivity.
    + simpl in Hall. inversion Hall as [|? ? Hs Hrest]; subst. rewrite Hs.
      rewrite IH by (simpl; auto). simpl.
      rewrite <- !app_assoc. reflexivity.
Qed.

Lemma target_run_add n m c :
  target_run worker worker_args (n + m) c
    = target_run worker worker_args m (target_run worker worker_args n c).
Proof.
  revert c. induction n as [|n IH]; intros c; simpl; [reflexivity | apply IH].
Qed.

Lemma target_run_terminated n : ∀ c,
  phase_ c = Terminated → target_run worker worker_args n c = c.
Proof.
  induction n as [|n IH]; intros c Hph; simpl; [reflexivity|].
  unfold target_step. rewrite Hph. apply IH. exact Hph.
Qed.

(** A whole run: [pre] is answered value by value, the start signal lets
    the worker in, and the child ends. *)
Lemma target_run_to_end pre post k :
  Forall (λ v, is_start v = false) pre →
  target_run worker worker_args (length pre + 2 + k)
             (spawn (pre ++ start_signal :: post))
    = mkChild Terminated post
              (map violation_reply pre ++ terminal_messages (worker worker_args))
              (pre ++ [start_signal]) 1 true (Some 0).
Proof.
  intros Hpre. rewrite !target_run_add.
  rewrite (target_run_awaiting (length pre)); simpl inbox.
  - rewrite take_app_length, drop_app_length. simpl.
    apply target_run_terminated. reflexivity.
  - reflexivity.
  - rewrite take_app_length. exact Hpre.
Qed.

Lemma message_variants_differ t t' : traceback_message t ≠ exception_message t'.
Proof.
  unfold traceback_message, exception_message. intros Heq.
  assert (H : ({[ "traceback"%string := PStr t ]} : gmap string pyval)
                !! "traceback"%string = Some (PStr t))
    by apply lookup_singleton_eq.
  rewrite Heq, lookup_singleton_ne in H by discriminate. discriminate.
Qed.

Lemma report_not_exception p t : report_message p ≠ exception_message t.
Proof.
  unfold report_message, exception_message. intros Heq.
  assert (H : ({[ "report"%string := PPayload p ]} : gmap string pyval)
                !! "report"%string = Some (PPayload p))
    by apply lookup_singleton_eq.
  rewrite Heq, lookup_singleton_ne in H by discriminate. discriminate.
Qed.

(** C9. While it awaits the start signal the child never runs the worker.
    A received value other than the start signal is answered with an
    exception message that describes it, and the child goes on waiting: it
    neither runs the worker nor exits.  This holds for every sequence of
    such values, however long; and in every state that parent and child can
    reach together, a worker that has been entered means that the start
    signal has been received. *)
Theorem worker_only_after_start :
  (∀ c response rest,
     phase_ c = AwaitingStart → inbox c = response :: rest →
     response ≠ start_signal →
     target_step worker worker_args c
       = mkChild AwaitingStart rest
                 (outbox c ++ [exception_message (unexpected_text response)])
                 (received c ++ [response])
                 (worker_calls c) (closed c) (exitcode c))
  ∧ (∀ vs n,
       Forall (λ v, v ≠ start_signal) vs →
       target_run worker worker_args n (spawn vs)
         = mkChild AwaitingStart (drop n vs)
                   (map (λ v, exception_message (unexpected_text v)) (take n vs))
                   (take n vs) 0 false None)
  ∧ (∀ c, reachable worker worker_args c →
       ((0 < worker_calls c)%nat → start_signal ∈ received c)
       ∧ (phase_ c = AwaitingStart →
            worker_calls c = 0%nat ∧ exitcode c = None
            ∧ start_signal ∉ received c)).
Proof.
  split; [|split].
  - intros c response rest Hph Hin Hns. unfold target_step.
    rewrite Hph, Hin. apply is_start_false in Hns. rewrite Hns. reflexivity.
  - intros vs n Hall. rewrite target_run_awaiting; [reflexivity..|].
    simpl. apply Forall_take, not_start_Forall, Hall.
  - intros c Hreach. apply harness_inv_reachable in Hreach.
    unfold harness_inv in Hreach. split.
    + intros Hcalls. destruct (phase_ c); destruct Hreach as (Hw & _ & _ & Hr);
        [lia | exact Hr | exact Hr].
    + intros Hph. rewrite Hph in Hreach.
      destruct Hreach as (Hw & He & _ & Hall & _).
      split; [exact Hw|]. split; [exact He|].
      intros Hin. rewrite Forall_forall in Hall. specialize (Hall _ Hin).
      discriminate Hall.
Qed.

(** C8. Once the worker has been entered the child ends in one move, with
    its end of the pipe closed and the exit code 0, whatever the worker did
    and whichever terminal message went out.  No state that parent and child
    can reach carries another exit code; and from its spawning on, a child
    that is sent the start signal does reach that end. *)
Theorem target_always_exits_zero :
  (∀ c, phase_ c = Running →
     phase_ (target_step worker worker_args c) = Terminated
     ∧ closed (target_step worker worker_args c) = true
     ∧ exitcode (target_step worker worker_args c) = Some 0
     ∧ outbox (target_step worker worker_args c)
         = outbox c ++ terminal_messages (worker worker_args))
  ∧ (∀ c, reachable worker worker_args c →
       (∀ code, exitcode c = Some code → code = 0)
       ∧ (phase_ c = Terminated → exitcode c = Some 0 ∧ closed c = true))
  ∧ (∀ pre post n,
       Forall (λ v, v ≠ start_signal) pre →
       (length pre + 2 ≤ n)%nat →
       target_run worker worker_args n (spawn (pre ++ start_signal :: post))
         = mkChild Terminated post
             (map violation_reply pre ++ terminal_messages (worker worker_args))
             (pre ++ [start_signal]) 1 true (Some 0)).
Proof.
  split; [|split].
  - intros c Hph. unfold target_step. rewrite Hph. simpl. auto.
  - intros c Hreach. apply harness_inv_reachable in Hreach.
    unfold harness_inv in Hreach. split.
    + intros code Hcode.
      destruct (phase_ c); destruct Hreach as (_ & He & _); congruence.
    + intros Hph. rewrite Hph in Hreach. tauto.
  - intros pre post n Hall Hn.
    replace n with (length pre + 2 + (n - (length pre + 2)))%nat by lia.
    apply target_run_to_end, not_start_Forall, Hall.
Qed.

(** C2, amended.  A worker failure that is an [Exception] (recognized or
    not) makes the child send the traceback message, with the full trace
    of [traceback.format_exc()].  No outcome of the worker makes it send an
    exception message: that variant is the answer to a value that is not the
    start signal.  The two variants are different messages, and [launch]
    turns either into a [ChildProcessError] that carries its text. *)
Theorem worker_failure_sends_traceback :
  (∀ c e,
     phase_ c = Running → worker worker_args = Raises e →
     exc_is_Exception e = true →
     outbox (target_step worker worker_args c)
       = outbox c ++ [traceback_message (exc_traceback e)])
  ∧ (∀ c text,
       phase_ c = Running →
       outbox (target_step worker worker_args c)
         ≠ outbox c ++ [exception_message text])
  ∧ (∀ t t', traceback_message t ≠ exception_message t')
  ∧ (∀ t rest,
       launch 0 (traceback_message t :: rest)
         = Raise (ChildProcessError (PStr t)))
  ∧ (∀ t rest,
       launch 0 (exception_message t :: rest)
         = Raise (ChildProcessError (PStr t))).
Proof.
  split; [|split; [|split; [|split]]].
  - intros c e Hph Hw He. unfold target_step. rewrite Hph. simpl.
    unfold terminal_messages. rewrite Hw, He. reflexivity.
  - intros c text Hph. unfold target_step. rewrite Hph. simpl.
    intros Heq. apply app_inv_head in Heq. unfold terminal_messages in Heq.
    destruct (worker worker_args) as [report|e].
    + apply (report_not_exception (to_dict report) text). congruence.
    + destruct (exc_is_Exception e); [|discriminate].
      apply (message_variants_differ (exc_traceback e) text). congruence.
  - exact message_variants_differ.
  - intros t rest. unfold launch, traceback_message. simpl.
    rewrite lookup_singleton_eq. reflexivity.
  - intros t rest. unfold launch, exception_message. simpl.
    rewrite lookup_singleton_ne by discriminate.
    rewrite lookup_singleton_eq. reflexivity.
Qed.

End Harness.

(** C1. After the join, [launch] decides in this order.  A nonzero exit
    code raises the error that carries the code, whatever waits in the pipe
    (a report included).  With exit code 0 and an empty pipe it raises the
    no-response error.  Otherwise it looks at the oldest message: a
    traceback or an exception entry raises [ChildProcessError] with that
    entry's text, a report entry returns [from_dict] of its payload, and a
    message with none of the three raises the unexpected-response error. *)
Theorem launch_decoding_order :
  (∀ code parent_connection,
     code ≠ 0 →
     launch code parent_connection
       = Raise (RuntimeError (ExitedNonZero code)))
  ∧ (∀ code payload rest,
       code ≠ 0 →
       launch code (report_message payload :: rest)
         = Raise (RuntimeError (ExitedNonZero code)))
  ∧ launch 0 [] = Raise (RuntimeError NoResponse)
  ∧ (∀ text rest,
       launch 0 (traceback_message text :: rest)
         = Raise (ChildProcessError (PStr text)))
  ∧ (∀ text rest,
       launch 0 (exception_message text :: rest)
         = Raise (ChildProcessError (PStr text)))
  ∧ (∀ payload rest,
       launch 0 (report_message payload :: rest)
         = Ok (from_dict (PPayload payload)))
  ∧ (∀ (response : gmap string pyval) rest,
       response !! "traceback"%string = None →
       response !! "exception"%string = None →
       response !! "report"%string = None →
       launch 0 (response :: rest)
         = Raise (RuntimeError (UnexpectedResponse response))).
Proof.
  assert (Hcode : ∀ code conn, code ≠ 0 →
            launch code conn = Raise (RuntimeError (ExitedNonZero code))).
  { intros code conn Hne. unfold launch.
    destruct (Z.eqb_spec code 0) as [->|_]; [congruence | reflexivity]. }
  split; [exact Hcode|]. split; [intros code payload rest; apply Hcode|].
  split; [reflexivity|]. split; [|split; [|split]].
  - intros text rest. unfold launch, traceback_message. simpl.
    rewrite lookup_singleton_eq. reflexivity.
  - intros text rest. unfold launch, exception_message. simpl.
    rewrite lookup_singleton_ne by discriminate.
    rewrite lookup_singleton_eq. reflexivity.
  - intros payload rest. unfold launch, report_message. simpl.
    rewrite !lookup_singleton_ne by discriminate.
    rewrite lookup_singleton_eq. reflexivity.
  - intros response rest Ht He Hr. unfold launch. simpl.
    rewrite Ht, He, Hr. reflexivity.
Qed.


(** *** Further properties of [launch] and [target] *)

Lemma launch_traceback_key (response : gmap string pyval) v rest :
  response !! "traceback"%string = Some v →
  launch 0 (response :: rest) = Raise (ChildProcessError v).
Proof. intros H. unfold launch. simpl. rewrite H. reflexivity. Qed.

Lemma launch_exception_key (response : gmap string pyval) v rest :
  response !! "traceback"%string = None →
  response !! "exception"%string = Some v →
  launch 0 (response :: rest) = Raise (ChildProcessError v).
Proof. intros Ht He. unfold launch. simpl. rewrite Ht, He. reflexivity. Qed.

(** X12. [launch] never returns a report from a child that exited with a
    nonzero code, from an empty pipe, or from a message that carries a
    traceback or an exception entry: when it returns, the exit code was 0
    and the oldest message had a report entry and neither of the other two,
    and the result is [from_dict] of that entry. *)
Theorem launch_returns_only_clean_reports (code : Z)
    (parent_connection : list (gmap string pyval)) (report : BenchmarkReport) :
  launch code parent_connection = Ok report →
  code = 0
  ∧ ∃ response rest payload,
      parent_connection = response :: rest
      ∧ response !! "traceback"%string = None
      ∧ response !! "exception"%string = None
      ∧ response !! "report"%string = Some payload
      ∧ report = from_dict payload.
Proof.
  unfold launch. intros H.
  destruct (Z.eqb_spec code 0) as [->|Hne]; simpl in H; [|discriminate].
  split; [reflexivity|].
  destruct parent_connection as [|response rest]; [discriminate|].
  destruct (response !! "traceback"%string) eqn:Ht; [discriminate|].
  destruct (response !! "exception"%string) eqn:He; [discriminate|].
  destruct (response !! "report"%string) as [payload|] eqn:Hr; [|discriminate].
  injection H as <-. exists response, rest, payload. auto.
Qed.

(** X13. [launch] reads the oldest message only, and in a message with
    several entries an error entry wins: a traceback entry decides before an
    exception entry, and either decides before a report entry, which is then
    never deserialized. *)
Theorem launch_first_message_and_key_order :
  (∀ code response rest,
     launch code (response :: rest) = launch code [response])
  ∧ (∀ (response : gmap string pyval) v rest,
       response !! "traceback"%string = Some v →
       launch 0 (response :: rest) = Raise (ChildProcessError v))
  ∧ (∀ (response : gmap string pyval) v rest,
       response !! "traceback"%string = None →
       response !! "exception"%string = Some v →
       launch 0 (response :: rest) = Raise (ChildProcessError v)).
Proof.
  split; [reflexivity|].
  split; [exact launch_traceback_key | exact launch_exception_key].
Qed.

(** *** [launch] and [target] together

    [launch] receives nothing before [isolated_process.join()] has
    returned, so whatever the child sends has to wait in the pipe until the
    child has exited.  The pipe is the operating system's: it takes
    [pipe_capacity] bytes while the other end receives nothing, and a
    [connection.send] that has more to write blocks until the other end
    receives.  [message_bytes] is the number of bytes [send] writes for a
    message (the length header and the pickle). *)
Section Pipe.

Variable message_bytes : gmap string pyval → N.
Variable pipe_capacity : N.

Definition total_bytes (messages : list (gmap string pyval)) : N :=
  foldr (λ m n, (message_bytes m + n)%N) 0%N messages.

(** The bytes written and not yet received. *)
Definition pending_bytes (c : child) : N := total_bytes (outbox c).

(** One move of the child while the parent receives nothing: a move that
    has to write more than the pipe takes does not end ([None]). *)
Definition target_step_unread (worker : Args → worker_outcome)
    (worker_args : Args) (c : child) : option child :=
  let c' := target_step worker worker_args c in
  if N.leb (pending_bytes c') pipe_capacity then Some c' else None.

Fixpoint target_run_unread (worker : Args → worker_outcome)
    (worker_args : Args) (n : nat) (c : child) : option child :=
  match n with
  | O => Some c
  | S n' =>
      match target_step_unread worker worker_args c with
      | None => None
      | Some c' => target_run_unread worker worker_args n' c'
      end
  end.

(** [launch] from its first line to its last, for a child that is left
    alone to run [target]: the pipe is created, the process started, the
    start signal sent; [join] returns once the child has an exit code
    ([fuel] bounds the child's moves), and the rest is the decoding above.
    [None] stands for a parent still blocked in [join]. *)
Definition launch_target (worker : Args → worker_outcome) (worker_args : Args)
    (fuel : nat) : option (result BenchmarkReport) :=
  let isolated_process := spawn [] in
  let isolated_process := deliver start_signal isolated_process in
  match target_run_unread worker worker_args fuel isolated_process with
  | None => None
  | Some isolated_process =>
      match exitcode isolated_process with
      | None => None
      | Some code => Some (launch code (outbox isolated_process))
      end
  end.

Section PipeFacts.

Variable worker : Args → worker_outcome.
Variable worker_args : Args.

Lemma target_step_outbox c :
  ∃ msgs, outbox (target_step worker worker_args c) = outbox c ++ msgs.
Proof.
  unfold target_step. destruct (phase_ c).
  - destruct (inbox c) as [|response rest]; [exists []; apply eq_sym, app_nil_r|].
    destruct (is_start response); simpl;
      [exists []; apply eq_sym, app_nil_r | eexists; reflexivity].
  - simpl. eexists. reflexivity.
  - exists []. apply eq_sym, app_nil_r.
Qed.

Lemma total_bytes_app l k :
  total_bytes (l ++ k) = (total_bytes l + total_bytes k)%N.
Proof.
  induction l as [|m l IH]; simpl; [reflexivity|]. rewrite IH. lia.
Qed.

Lemma pending_bytes_step c :
  (pending_bytes c ≤ pending_bytes (target_step worker worker_args c))%N.
Proof.
  unfold pending_bytes. destruct (target_step_outbox c) as [msgs ->].
  rewrite total_bytes_app. lia.
Qed.

Lemma pending_bytes_run n : ∀ c,
  (pending_bytes c ≤ pending_bytes (target_run worker worker_args n c))%N.
Proof.
  induction n as [|n IH]; intros c; simpl; [lia|].
  pose proof (pending_bytes_step c). pose proof (IH (target_step worker worker_args c)).
  lia.
Qed.

(** As long as everything the child sends fits in the pipe, the child moves
    as if the pipe had no bound. *)
Lemma target_run_unread_fits n : ∀ c,
  (pending_bytes (target_run worker worker_args n c) ≤ pipe_capacity)%N →
  target_run_unread worker worker_args n c
    = Some (target_run worker worker_args n c).
Proof.
  induction n as [|n IH]; intros c Hfit; simpl; [reflexivity|].
  simpl in Hfit. unfold target_step_unread.
  pose proof (pending_bytes_run n (target_step worker worker_args c)) as Hmono.
  destruct (N.leb_spec (pending_bytes (target_step worker worker_args c))
              pipe_capacity) as [_|Hgt]; [|lia].
  apply IH. exact Hfit.
Qed.

Lemma target_run_unread_terminated n c :
  phase_ c = Terminated →
  (pending_bytes c ≤ pipe_capacity)%N →
  target_run_unread worker worker_args n c = Some c.
Proof.
  intros Hph Hfit.
  rewrite target_run_unread_fits; rewrite target_run_terminated by exact Hph;
    [reflexivity | exact Hfit].
Qed.

(** The first two moves of an undisturbed child. *)
Lemma target_step_unread_start :
  target_step_unread worker worker_args (deliver start_signal (spawn []))
    = Some (mkChild Running [] [] [start_signal] 0 false None).
Proof.
  unfold target_step_unread.
  change (target_step worker worker_args (deliver start_signal (spawn [])))
    with (mkChild Running [] [] [start_signal] 0 false None).
  change (pending_bytes (mkChild Running [] [] [start_signal] 0 false None))
    with 0%N.
  destruct (N.leb_spec 0 pipe_capacity); [reflexivity | lia].
Qed.

Lemma target_run_unread_start fuel :
  target_run_unread worker worker_args (S (S fuel))
                    (deliver start_signal (spawn []))
    = if N.leb (total_bytes (terminal_messages (worker worker_args)))
               pipe_capacity
      then Some (mkChild Terminated [] (terminal_messages (worker worker_args))
                         [start_signal] 1 true (Some 0))
      else None.
Proof.
  simpl target_run_unread. rewrite target_step_unread_start.
  unfold target_step_unread.
  change (target_step worker worker_args
            (mkChild Running [] [] [start_signal] 0 false None))
    with (mkChild Terminated [] (terminal_messages (worker worker_args))
                  [start_signal] 1 true (Some 0)).
  change (pending_bytes (mkChild Terminated [] (terminal_messages (worker worker_args))
                                 [start_signal] 1 true (Some 0)))
    with (total_bytes (terminal_messages (worker worker_args))).
  destruct (N.leb_spec (total_bytes (terminal_messages (worker worker_args)))
              pipe_capacity) as [Hfit|Hbig]; [|reflexivity].
  apply target_run_unread_terminated; [reflexivity | exact Hfit].
Qed.

Lemma launch_terminal_messages :
  launch 0 (terminal_messages (worker worker_args))
    = match worker worker_args with
      | Returns report => Ok (from_dict (PPayload (to_dict report)))
      | Raises e =>
          if exc_is_Exception e
          then Raise (ChildProcessError (PStr (exc_traceback e)))
          else Raise (RuntimeError NoResponse)
      end.
Proof.
  unfold terminal_messages, launch. change (negb (0 =? 0)) with false.
  destruct (worker worker_args) as [report|e]; cbv iota.
  - unfold report_message. rewrite !lookup_singleton_ne by discriminate.
    rewrite lookup_singleton_eq. reflexivity.
  - destruct (exc_is_Exception e); [|reflexivity].
    unfold traceback_message. rewrite lookup_singleton_eq. reflexivity.
Qed.

(** X14. [launch], seen from its caller, for a worker that returns or
    raises and a child that runs [target] undisturbed.  Until the child has
    made its two moves the parent is blocked in [join].  If the terminal
    message fits in the pipe, the caller then gets [from_dict] of [to_dict]
    of the worker's report, or a [ChildProcessError] with the full trace if
    the worker raised an [Exception], or the no-response [RuntimeError] if
    it raised anything else (the [finally] arm exits before any message is
    sent); where [from_dict] undoes [to_dict], the caller gets the worker's
    own report.  If the terminal message does not fit, the child blocks in
    [send] while the parent waits in [join]: [launch] does not return,
    whatever the number of moves. *)
Theorem launch_target_end_to_end (fuel : nat) :
  ((fuel < 2)%nat → launch_target worker worker_args fuel = None)
  ∧ ((total_bytes (terminal_messages (worker worker_args))
      ≤ pipe_capacity)%N →
     (2 ≤ fuel)%nat →
     launch_target worker worker_args fuel
       = Some match worker worker_args with
              | Returns report => Ok (from_dict (PPayload (to_dict report)))
              | Raises e =>
                  if exc_is_Exception e
                  then Raise (ChildProcessError (PStr (exc_traceback e)))
                  else Raise (RuntimeError NoResponse)
              end
     ∧ ((∀ r, from_dict (PPayload (to_dict r)) = r) →
        ∀ report, worker worker_args = Returns report →
        launch_target worker worker_args fuel = Some (Ok report)))
  ∧ ((pipe_capacity
      < total_bytes (terminal_messages (worker worker_args)))%N →
     launch_target worker worker_args fuel = None).
Proof.
  assert (Hshort : (fuel < 2)%nat → launch_target worker worker_args fuel = None).
  { intros Hfuel. destruct fuel as [|[|fuel]]; [reflexivity | | lia].
    unfold launch_target. simpl target_run_unread.
    rewrite target_step_unread_start. reflexivity. }
  split; [exact Hshort|]. split.
  - intros Hfit Hfuel.
    assert (Hrun : launch_target worker worker_args fuel
                   = Some (launch 0 (terminal_messages (worker worker_args)))).
    { destruct fuel as [|[|fuel]]; [lia | lia |].
      unfold launch_target. rewrite target_run_unread_start.
      apply N.leb_le in Hfit. rewrite Hfit. reflexivity. }
    rewrite Hrun, launch_terminal_messages. split; [reflexivity|].
    intros Hround report Hw. rewrite Hw, Hround. reflexivity.
  - intros Hbig. destruct fuel as [|[|fuel]]; [apply Hshort; lia | apply Hshort; lia|].
    unfold launch_target. rewrite target_run_unread_start.
    apply N.leb_gt in Hbig. rewrite Hbig. reflexivity.
Qed.

(** X15. A value that reaches the child before the start signal spoils the
    launch.  The child answers it with an exception message, which is then
    the oldest message in the pipe: if the worker returns or raises and
    all the child sends fits in the pipe, the child exits with code 0 and
    [launch] raises [ChildProcessError] with the text of that answer, also
    when the worker has returned a report. *)
Theorem stray_value_masks_worker_outcome (v : pyval) (pre post : list pyval)
    (fuel : nat) :
  v ≠ start_signal →
  Forall (λ x, x ≠ start_signal) pre →
  (length pre + 3 ≤ fuel)%nat →
  (total_bytes
     (map violation_reply (v :: pre) ++ terminal_messages (worker worker_args))
   ≤ pipe_capacity)%N →
  ∃ c, target_run_unread worker worker_args fuel
         (spawn (v :: pre ++ start_signal :: post)) = Some c
       ∧ exitcode c = Some 0
       ∧ launch 0 (outbox c)
           = Raise (ChildProcessError (PStr (unexpected_text v))).
Proof.
  intros Hv Hpre Hfuel Hfit.
  assert (Hend : target_run worker worker_args fuel
                   (spawn (v :: pre ++ start_signal :: post))
                 = mkChild Terminated post
                     (map violation_reply (v :: pre)
                      ++ terminal_messages (worker worker_args))
                     ((v :: pre) ++ [start_signal]) 1 true (Some 0)).
  { replace fuel with (length (v :: pre) + 2 + (fuel - (length pre + 3)))%nat
      by (simpl; lia).
    change (v :: pre ++ start_signal :: post)
      with ((v :: pre) ++ start_signal :: post).
    apply target_run_to_end.
    constructor; [apply is_start_false; exact Hv|].
    apply not_start_Forall. exact Hpre. }
  eexists. split; [|split].
  - rewrite target_run_unread_fits; [rewrite Hend; reflexivity|].
    rewrite Hend. exact Hfit.
  - reflexivity.
  - cbn [outbox map app]. apply launch_exception_key.
    + unfold violation_reply, exception_message.
      apply lookup_singleton_ne. discriminate.
    + unfold violation_reply, exception_message.
      apply lookup_singleton_eq.
Qed.

End PipeFacts.

End Pipe.

Section HarnessMore.

Variable worker : Args → worker_outcome.
Variable worker_args : Args.

(** The child never gets ahead of what it has read. *)
Definition outbox_inv (c : child) : Prop :=
  (worker_calls c ≤ 1)%nat
  ∧ (length (outbox c)
       + match phase_ c with Running => 1 | _ => 0 end
     ≤ length (received c))%nat.

Lemma terminal_messages_length o : (length (terminal_messages o) ≤ 1)%nat.
Proof.
  destruct o as [report|e]; simpl; [lia|].
  destruct (exc_is_Exception e); simpl; lia.
Qed.

Lemma outbox_inv_reachable c :
  reachable worker worker_args c → harness_inv c ∧ outbox_inv c.
Proof.
  induction 1 as [|c c' Hreach [Hinv [Hcalls Hlen]] Hstep].
  - split; [apply (harness_inv_reachable worker worker_args); constructor|].
    unfold outbox_inv. simpl. lia.
  - split.
    { destruct Hstep; [apply harness_inv_target_step | apply harness_inv_deliver];
        exact Hinv. }
    destruct Hstep as [c | c v]; [|exact (conj Hcalls Hlen)].
    unfold outbox_inv, target_step. unfold harness_inv in Hinv.
    destruct (phase_ c) eqn:Hph.
    + destruct (inbox c) as [|response rest]; [rewrite Hph; lia|].
      destruct (is_start response); simpl; rewrite ?length_app; simpl; lia.
    + destruct Hinv as (Hw & _). simpl. rewrite Hw, !length_app.
      pose proof (terminal_messages_length (worker worker_args)). lia.
    + rewrite Hph. lia.
Qed.

(** X16. In every state that parent and child can reach, the worker has been
    entered at most once and the child has sent at most one message per
    value it has read (an answer to each value that is not the start signal,
    at most one terminal message for the start signal).  A move of either
    side only appends to what the child has sent, and once the child has
    terminated its own moves change nothing: no message follows the exit. *)
Theorem child_sends_at_most_one_message_per_value :
  (∀ c, reachable worker worker_args c →
     (worker_calls c ≤ 1)%nat
     ∧ (length (outbox c) ≤ length (received c))%nat)
  ∧ (∀ c c', step worker worker_args c c' → outbox c `prefix_of` outbox c')
  ∧ (∀ c, phase_ c = Terminated → target_step worker worker_args c = c).
Proof.
  split; [|split].
  - intros c Hreach. destruct (outbox_inv_reachable c Hreach) as [_ [H1 H2]].
    split; [exact H1 | lia].
  - intros c c' [c0 | c0 v]; [|exists []; simpl; rewrite app_nil_r; reflexivity].
    unfold target_step. destruct (phase_ c0).
    + destruct (inbox c0) as [|response rest]; [reflexivity|].
      destruct (is_start response); simpl;
        [reflexivity | eexists; reflexivity].
    + simpl. eexists. reflexivity.
    + reflexivity.
  - intros c Hph. unfold target_step. rewrite Hph. reflexivity.
Qed.

End HarnessMore.

End Process.

Arguments Ok {Payload A} a.
Arguments Raise {Payload A} e.

(** *** A concrete instance

    Reports are mappings from keys to booleans, such as [{"ok": true}], and
    are their own dict form. *)
Definition demo_report : Type := list (string * bool).

Definition demo_to_dict (r : demo_report) : demo_report := r.

Definition demo_from_dict (v : @pyval demo_report) : demo_report :=
  match v with
  | PPayload p => p
  | _ => []
  end.

Definition demo_payload_str (p : demo_report) : string := "{...}".

Definition ok_report : demo_report := [("ok"%string, true)].

(** The classified failure of the specification's first failure scenario:
    a [ValueError("bad input")]. *)
Definition bad_input : pyexc :=
  mkExc "ValueError" "bad input"
        "Traceback (most recent call last): ... ValueError: bad input" true.

Definition keyboard_interrupt : pyexc :=
  mkExc "KeyboardInterrupt" ""
        "Traceback (most recent call last): ... KeyboardInterrupt" false.

Definition worker_ok (_ : unit) : @worker_outcome demo_report :=
  Returns ok_report.

Definition worker_bad_input (_ : unit) : @worker_outcome demo_report :=
  Raises bad_input.

Definition worker_interrupted (_ : unit) : @worker_outcome demo_report :=
  Raises keyboard_interrupt.

Definition demo_step := @target_step _ _ unit demo_to_dict demo_payload_str.
Definition demo_run := @target_run _ _ unit demo_to_dict demo_payload_str.

(** The child right after it has read the start signal. *)
Definition entered : @child demo_report :=
  mkChild Running [] [] [start_signal] 0 false None.

Lemma launch_decoding_order_witness :
  launch demo_from_dict 137 [report_message ok_report]
    = Raise (RuntimeError (ExitedNonZero 137))
  ∧ launch demo_from_dict 0 [{[ "status"%string := PStr "done" ]}]
    = Raise (RuntimeError (UnexpectedResponse {[ "status"%string := PStr "done" ]})).
Proof.
  pose proof (launch_decoding_order demo_from_dict) as (Hcode & _ & _ & _ & _ & _ & Hother).
  split.
  - apply Hcode. discriminate.
  - apply Hother; reflexivity.
Defined.

Lemma worker_only_after_start_witness :
  demo_run worker_ok tt 5 (spawn [PStr "go"; PInt 7; PNone])
    = mkChild AwaitingStart []
        [exception_message "Isolated process received an unexpected response: go";
         exception_message "Isolated process received an unexpected response: 7";
         exception_message "Isolated process received an unexpected response: None"]
        [PStr "go"; PInt 7; PNone] 0 false None.
Proof.
  pose proof (worker_only_after_start demo_to_dict demo_payload_str worker_ok tt)
    as (_ & Hrun & _).
  apply (Hrun [PStr "go"; PInt 7; PNone] 5%nat).
  repeat constructor; discriminate.
Defined.

Lemma target_always_exits_zero_witness :
  demo_run worker_bad_input tt 4 (spawn [PStr "go"; start_signal])
    = mkChild Terminated []
        [exception_message "Isolated process received an unexpected response: go";
         traceback_message (exc_traceback bad_input)]
        [PStr "go"; start_signal] 1 true (Some 0)
  ∧ exitcode (demo_step worker_interrupted tt entered) = Some 0.
Proof.
  pose proof (target_always_exits_zero demo_to_dict demo_payload_str
                worker_bad_input tt) as (_ & _ & Hrun).
  pose proof (target_always_exits_zero demo_to_dict demo_payload_str
                worker_interrupted tt) as (Hstep & _ & _).
  split.
  - apply (Hrun [PStr "go"] [] 4%nat).
    + repeat constructor; discriminate.
    + simpl. lia.
  - apply (Hstep entered). reflexivity.
Defined.

(** C2, as stated, fails.  The worker raises the classified error "bad
    input"; the child does not send the exception message with that text,
    it sends the traceback message with the full trace. *)
Lemma classified_failure_counterexample :
  worker_bad_input tt = Raises bad_input
  ∧ exc_str bad_input = "bad input"%string
  ∧ outbox (demo_step worker_bad_input tt entered)
      = [traceback_message (exc_traceback bad_input)]
  ∧ outbox (demo_step worker_bad_input tt entered)
      ≠ [exception_message (exc_str bad_input)].
Proof.
  split; [reflexivity|]. split; [reflexivity|]. split; [reflexivity|].
  change (outbox (demo_step worker_bad_input tt entered))
    with [@traceback_message demo_report (exc_traceback bad_input)].
  intros Heq.
  apply (@message_variants_differ demo_report
           (exc_traceback bad_input) (exc_str bad_input)).
  congruence.
Qed.

Lemma worker_failure_sends_traceback_witness :
  outbox (demo_step worker_bad_input tt entered)
    = [traceback_message (exc_traceback bad_input)].
Proof.
  pose proof (worker_failure_sends_traceback demo_to_dict demo_from_dict
                demo_payload_str worker_bad_input tt) as (Hsend & _).
  apply (Hsend entered bad_input); reflexivity.
Defined.

Lemma demo_round_trip (r : demo_report) :
  demo_from_dict (PPayload (demo_to_dict r)) = r.
Proof. reflexivity. Qed.

Lemma launch_returns_only_clean_reports_witness :
  (0 = 0)%Z
  ∧ ∃ (response : gmap string (@pyval demo_report)) rest payload,
      [report_message ok_report] = response :: rest
      ∧ response !! "traceback"%string = None
      ∧ response !! "exception"%string = None
      ∧ response !! "report"%string = Some payload
      ∧ ok_report = demo_from_dict payload.
Proof.
  apply (launch_returns_only_clean_reports demo_from_dict 0
           [report_message ok_report] ok_report).
  reflexivity.
Defined.

Lemma launch_first_message_and_key_order_witness :
  launch demo_from_dict 0
    [<[ "traceback"%string := PStr "boom" ]> (report_message ok_report)]
    = Raise (ChildProcessError (PStr "boom")).
Proof.
  apply (proj1 (proj2 (launch_first_message_and_key_order demo_from_dict))).
  reflexivity.
Defined.

(** Every message of the instance is taken to pickle to 100 bytes. *)
Definition demo_bytes (m : gmap string (@pyval demo_report)) : N := 100.

Lemma launch_target_end_to_end_witness :
  launch_target demo_to_dict demo_from_dict demo_payload_str demo_bytes 65536
                worker_ok tt 0 = None
  ∧ launch_target demo_to_dict demo_from_dict demo_payload_str demo_bytes 65536
                  worker_ok tt 2
    = Some (Ok ok_report)
  ∧ launch_target demo_to_dict demo_from_dict demo_payload_str demo_bytes 65536
                  worker_interrupted tt 5
    = Some (Raise (RuntimeError NoResponse))
  ∧ launch_target demo_to_dict demo_from_dict demo_payload_str demo_bytes 64
                  worker_ok tt 7 = None.
Proof.
  pose proof (launch_target_end_to_end demo_to_dict demo_from_dict
                demo_payload_str demo_bytes 65536 worker_ok tt) as Hok.
  pose proof (launch_target_end_to_end demo_to_dict demo_from_dict
                demo_payload_str demo_bytes 65536 worker_interrupted tt 5%nat)
    as (_ & Hint & _).
  pose proof (launch_target_end_to_end demo_to_dict demo_from_dict
                demo_payload_str demo_bytes 64 worker_ok tt 7%nat)
    as (_ & _ & Hblocked).
  split; [|split; [|split]].
  - apply (proj1 (Hok 0%nat)). lia.
  - apply (proj2 (proj1 (proj2 (Hok 2%nat)) ltac:(vm_compute; discriminate)
                    ltac:(lia)));
      [exact demo_round_trip | reflexivity].
  - apply (proj1 (Hint ltac:(vm_compute; discriminate) ltac:(lia))).
  - apply Hblocked. vm_compute. reflexivity.
Defined.

Lemma stray_value_masks_worker_outcome_witness :
  ∃ c, target_run_unread demo_to_dict demo_payload_str demo_bytes 65536
         worker_ok tt 3 (spawn [PStr "go"; start_signal]) = Some c
       ∧ exitcode c = Some 0
       ∧ launch demo_from_dict 0 (outbox c)
           = Raise (ChildProcessError
                      (PStr "Isolated process received an unexpected response: go")).
Proof.
  apply (stray_value_masks_worker_outcome demo_to_dict demo_from_dict
           demo_payload_str demo_bytes 65536 worker_ok tt (PStr "go") [] [] 3%nat
           ltac:(discriminate) ltac:(constructor) ltac:(simpl; lia)
           ltac:(vm_compute; discriminate)).
Defined.

Lemma child_sends_at_most_one_message_per_value_witness :
  (worker_calls (demo_step worker_ok tt (deliver (PInt 3) (spawn []))) ≤ 1)%nat
  ∧ (length (outbox (demo_step worker_ok tt (deliver (PInt 3) (spawn []))))
     ≤ length (received (demo_step worker_ok tt (deliver (PInt 3) (spawn [])))))%nat.
Proof.
  apply (proj1 (child_sends_at_most_one_message_per_value demo_to_dict
                  demo_payload_str worker_ok tt)).
  eapply reachable_step; [|apply step_child].
  eapply reachable_step; [|apply step_parent].
  apply reachable_spawn.
Defined.

End ProcessLauncher.

(** ** optimum_benchmark/backends/transformers_utils.py *)
Module TransformersUtils.

(** Values found in the dict form of a config or a processor. *)
#[local] Unset Elimination Schemes.
Inductive pyobj :=
| ONone
| OBool (b : bool)
| OInt (n : Z)
| OFloat (q : Q)
| OStr (s : string)
| OList (l : list pyobj)
| OTuple (l : list pyobj)
| ODict (items : list (string * pyobj)).
#[local] Set Elimination Schemes.

(** A [dict] with [str] keys: its items in insertion order, the keys
    pairwise distinct. *)
Definition dict := list (string * pyobj).

(** [d.get(k)], and with it [k in d] and [d[k]] *)
Fixpoint dict_get (d : dict) (k : string) : option pyobj :=
  match d with
  | [] => None
  | (k', v) :: rest => if String.eqb k' k then Some v else dict_get rest k
  end.

(** [d[k] = v]: a known key keeps its place, a new one goes last. *)
Fixpoint dict_set (d : dict) (k : string) (v : pyobj) : dict :=
  match d with
  | [] => [(k, v)]
  | (k', v') :: rest =>
      if String.eqb k' k then (k, v) :: rest
      else (k', v') :: dict_set rest k v
  end.

(** [d.update(other)] *)
Definition dict_update (d other : dict) : dict :=
  fold_left (λ acc kv, dict_set acc kv.1 kv.2) other d.

Definition is_dict (v : pyobj) : bool :=
  match v with
  | ODict _ => true
  | _ => false
  end.

(** [get_flat_dict(v)] for a dict [v] (nothing for any other value). *)
Fixpoint flatten (v : pyobj) : dict :=
  match v with
  | ODict items =>
      (fix loop (items : list (string * pyobj)) (flat_dict : dict) : dict :=
         match items with
         | [] => flat_dict
         | (k, x) :: rest =>
             loop rest
               (if is_dict x then dict_update flat_dict (flatten x)
                else dict_set flat_dict k x)
         end) items []
  | _ => []
  end.

Definition get_flat_dict (d : dict) : dict := flatten (ODict d).

(** The entries that are no dicts, in the order in which [get_flat_dict]
    meets them. *)
Fixpoint leaves (v : pyobj) : list (string * pyobj) :=
  match v with
  | ODict items =>
      (fix go (items : list (string * pyobj)) : list (string * pyobj) :=
         match items with
         | [] => []
         | (k, x) :: rest => (if is_dict x then leaves x else [(k, x)]) ++ go rest
         end) items
  | _ => []
  end.

(** The loop of [get_flat_dict] and the traversal of [leaves], by name. *)
Definition flat_loop : list (string * pyobj) → dict → dict :=
  fix loop (items : list (string * pyobj)) (flat_dict : dict) : dict :=
    match items with
    | [] => flat_dict
    | (k, x) :: rest =>
        loop rest
          (if is_dict x then dict_update flat_dict (flatten x)
           else dict_set flat_dict k x)
    end.

Definition leaves_of_items : list (string * pyobj) → list (string * pyobj) :=
  fix go (items : list (string * pyobj)) : list (string * pyobj) :=
    match items with
    | [] => []
    | (k, x) :: rest => (if is_dict x then leaves x else [(k, x)]) ++ go rest
    end.

Lemma flatten_ODict items : flatten (ODict items) = flat_loop items [].
Proof. reflexivity. Qed.

Lemma leaves_ODict items : leaves (ODict items) = leaves_of_items items.
Proof. reflexivity. Qed.

(** The nesting depth of dict values, for induction on dicts in dicts. *)
Fixpoint depth (v : pyobj) : nat :=
  match v with
  | ODict items =>
      S ((fix go (items : list (string * pyobj)) : nat :=
            match items with
            | [] => 0%nat
            | (_, x) :: rest => Nat.max (depth x) (go rest)
            end) items)
  | _ => 0%nat
  end.

Lemma depth_item items k x :
  (k, x) ∈ items → (depth x < depth (ODict items))%nat.
Proof.
  intros Hin. simpl. apply Nat.lt_succ_r.
  induction items as [|[k' x'] rest IH]; [inversion Hin|].
  apply elem_of_cons in Hin. destruct Hin as [[= <- <-] | Hin].
  - apply Nat.le_max_l.
  - etransitivity; [apply IH; exact Hin | apply Nat.le_max_r].
Qed.

Lemma dict_nesting_ind (P : list (string * pyobj) → Prop) :
  (∀ items,
     (∀ k sub, (k, ODict sub) ∈ items → P sub) → P items) →
  ∀ items, P items.
Proof.
  intros Hstep items.
  remember (depth (ODict items)) as n eqn:Hn.
  revert items Hn. induction n as [n IH] using lt_wf_ind.
  intros items ->. apply Hstep. intros k sub Hin.
  apply (IH (depth (ODict sub))); [|reflexivity].
  apply (depth_item items k). exact Hin.
Qed.

(** *** Dicts *)

Definition keys (d : dict) : list string := map fst d.

Lemma dict_get_set d k v k' :
  dict_get (dict_set d k v) k'
    = if String.eqb k k' then Some v else dict_get d k'.
Proof.
  induction d as [|[k0 v0] rest IH]; simpl.
  - reflexivity.
  - destruct (String.eqb_spec k0 k) as [->|Hne]; simpl.
    + destruct (String.eqb k k'); reflexivity.
    + rewrite IH. destruct (String.eqb_spec k0 k') as [->|Hne'];
        [|reflexivity].
      destruct (String.eqb_spec k k') as [->|_]; [congruence | reflexivity].
Qed.

Lemma dict_get_None d k : dict_get d k = None ↔ k ∉ keys d.
Proof.
  induction d as [|[k0 v0] rest IH]; simpl.
  - split; [intros _; apply not_elem_of_nil | reflexivity].
  - rewrite not_elem_of_cons, <- IH.
    destruct (String.eqb_spec k0 k) as [->|Hne]; split;
      try discriminate; try tauto.
    intros H. split; [congruence | exact H].
Qed.

Lemma dict_get_Some_elem d k v : dict_get d k = Some v → (k, v) ∈ d.
Proof.
  induction d as [|[k0 v0] rest IH]; simpl; [discriminate|].
  destruct (String.eqb_spec k0 k) as [->|Hne].
  - intros [= ->]. apply elem_of_cons. left. reflexivity.
  - intros H. apply elem_of_cons. right. apply IH. exact H.
Qed.

Lemma dict_set_new d k v : k ∉ keys d → dict_set d k v = d ++ [(k, v)].
Proof.
  induction d as [|[k0 v0] rest IH]; simpl; [reflexivity|].
  rewrite not_elem_of_cons. intros [Hne Hrest].
  destruct (String.eqb_spec k0 k) as [->|_]; [congruence|].
  rewrite IH by exact Hrest. reflexivity.
Qed.

Lemma dict_set_keys d k v :
  keys (dict_set d k v) = if decide (k ∈ keys d) then keys d else keys d ++ [k].
Proof.
  destruct (decide (k ∈ keys d)) as [Hin|Hnin].
  - induction d as [|[k0 v0] rest IH]; [inversion Hin|].
    cbn [dict_set]. destruct (String.eqb_spec k0 k) as [->|Hne]; [reflexivity|].
    unfold keys in *. cbn [map fst] in *. f_equal. apply IH.
    apply elem_of_cons in Hin. destruct Hin as [->|Hin]; [congruence | exact Hin].
  - rewrite dict_set_new by exact Hnin. unfold keys. rewrite map_app. reflexivity.
Qed.

Lemma dict_set_elem d k v kv :
  kv ∈ dict_set d k v → kv = (k, v) ∨ kv ∈ d.
Proof.
  induction d as [|[k0 v0] rest IH]; simpl.
  - intros H. apply list_elem_of_singleton in H. left. exact H.
  - destruct (String.eqb k0 k).
    + rewrite !elem_of_cons. intros [H|H]; [left; exact H | right; right; exact H].
    + rewrite !elem_of_cons. intros [H|H]; [right; left; exact H|].
      destruct (IH H) as [H'|H']; [left; exact H' | right; right; exact H'].
Qed.

(** A flat dict: distinct keys, and no value is a dict. *)
Definition is_flat (d : dict) : Prop :=
  NoDup (keys d) ∧ Forall (λ kv, is_dict kv.2 = false) d.

Lemma is_flat_nil : is_flat [].
Proof. split; constructor. Qed.

Lemma is_flat_set d k v : is_flat d → is_dict v = false → is_flat (dict_set d k v).
Proof.
  intros [Hnd Hall] Hv. split.
  - rewrite dict_set_keys. destruct (decide (k ∈ keys d)); [exact Hnd|].
    apply NoDup_app. split; [exact Hnd|]. split.
    + intros x Hx Hk. apply list_elem_of_singleton in Hk. congruence.
    + apply NoDup_singleton.
  - apply Forall_forall. intros kv Hin.
    destruct (dict_set_elem _ _ _ _ Hin) as [->|Hin']; [exact Hv|].
    rewrite Forall_forall in Hall. exact (Hall _ Hin').
Qed.

Lemma is_flat_update d other :
  is_flat d → Forall (λ kv, is_dict kv.2 = false) other →
  is_flat (dict_update d other).
Proof.
  unfold dict_update. revert d.
  induction other as [|[k v] rest IH]; intros d Hd Hall; simpl; [exact Hd|].
  inversion Hall as [|? ? Hv Hrest]; subst.
  apply IH; [apply is_flat_set; assumption | exact Hrest].
Qed.

Lemma flat_loop_cons k x rest acc :
  flat_loop ((k, x) :: rest) acc
    = flat_loop rest (if is_dict x then dict_update acc (flatten x)
                      else dict_set acc k x).
Proof. reflexivity. Qed.

Lemma flat_loop_is_flat items : ∀ acc, is_flat acc → is_flat (flat_loop items acc).
Proof.
  induction items as [items IHsub] using dict_nesting_ind.
  assert (Hgen : ∀ l, (∀ kv, kv ∈ l → kv ∈ items) →
            ∀ acc, is_flat acc → is_flat (flat_loop l acc)).
  { induction l as [|[k x] rest IH]; intros Hsub acc Hacc; [exact Hacc|].
    rewrite flat_loop_cons. apply IH.
    - intros kv Hin. apply Hsub. apply elem_of_cons. right. exact Hin.
    - destruct x as [| | | | | | |sub]; simpl;
        try (apply is_flat_set; [exact Hacc | reflexivity]).
      apply is_flat_update; [exact Hacc|].
      apply (IHsub k sub).
      + apply Hsub. apply elem_of_cons. left. reflexivity.
      + exact is_flat_nil. }
  apply Hgen. auto.
Qed.

Lemma get_flat_dict_flat (d : dict) : is_flat (get_flat_dict d).
Proof. apply flat_loop_is_flat, is_flat_nil. Qed.

Lemma is_flat_value d k v : is_flat d → dict_get d k = Some v → is_dict v = false.
Proof.
  intros [_ Hall] H. apply dict_get_Some_elem in H.
  rewrite Forall_forall in Hall. exact (Hall _ H).
Qed.

(** X17. Whatever dict goes in, nested as deep as it may be and with keys
    repeated across levels, [get_flat_dict] returns a dict with distinct
    keys none of whose values is a dict.  (A dict inside a list stays where
    it is.) *)
Theorem get_flat_dict_result_is_flat (d : dict) :
  NoDup (keys (get_flat_dict d))
  ∧ (∀ k v, dict_get (get_flat_dict d) k = Some v → is_dict v = false)
  ∧ (∀ k sub, (k, ODict sub) ∉ get_flat_dict d).
Proof.
  pose proof (get_flat_dict_flat d) as Hflat.
  split; [apply Hflat|]. split.
  - intros k v. apply is_flat_value. exact Hflat.
  - intros k sub Hin. destruct Hflat as [_ Hall].
    rewrite Forall_forall in Hall. specialize (Hall _ Hin). discriminate Hall.
Qed.

Lemma flat_loop_flat_items items : ∀ acc,
  Forall (λ kv, is_dict kv.2 = false) items →
  NoDup (keys acc ++ keys items) →
  flat_loop items acc = acc ++ items.
Proof.
  induction items as [|[k x] rest IH]; intros acc Hall Hnd.
  - simpl. rewrite app_nil_r. reflexivity.
  - inversion Hall as [|? ? Hx Hrest]; subst. simpl in Hx.
    rewrite flat_loop_cons, Hx.
    assert (Hk : k ∉ keys acc).
    { apply NoDup_app in Hnd. destruct Hnd as (_ & Hdisj & _).
      intros Hin. apply (Hdisj k Hin). apply elem_of_cons. left. reflexivity. }
    rewrite dict_set_new by exact Hk. rewrite IH.
    + rewrite <- app_assoc. reflexivity.
    + exact Hrest.
    + unfold keys in *. rewrite map_app, <- app_assoc. exact Hnd.
Qed.

(** X18. On a dict that is flat already (distinct keys, no dict among the
    values) [get_flat_dict] changes nothing, not even the order; hence
    flattening twice is flattening once. *)
Theorem get_flat_dict_of_flat (d : dict) :
  (is_flat d → get_flat_dict d = d)
  ∧ get_flat_dict (get_flat_dict d) = get_flat_dict d.
Proof.
  assert (Hid : ∀ d', is_flat d' → get_flat_dict d' = d').
  { intros d' [Hnd Hall]. unfold get_flat_dict. rewrite flatten_ODict.
    rewrite flat_loop_flat_items; [reflexivity | exact Hall | exact Hnd]. }
  split; [apply Hid | apply Hid, get_flat_dict_flat].
Qed.

(** The value of the last entry for [k] in a list of entries. *)
Definition last_entry (l : list (string * pyobj)) (k : string) : option pyobj :=
  dict_get (rev l) k.

Lemma dict_get_app d1 d2 k :
  dict_get (d1 ++ d2) k
    = match dict_get d1 k with Some v => Some v | None => dict_get d2 k end.
Proof.
  induction d1 as [|[k0 v0] rest IH]; simpl; [reflexivity|].
  destruct (String.eqb k0 k); [reflexivity | exact IH].
Qed.

Lemma last_entry_app l1 l2 k :
  last_entry (l1 ++ l2) k
    = match last_entry l2 k with Some v => Some v | None => last_entry l1 k end.
Proof. unfold last_entry. rewrite rev_app_distr. apply dict_get_app. Qed.

Lemma last_entry_NoDup d k : NoDup (keys d) → last_entry d k = dict_get d k.
Proof.
  unfold last_entry. induction d as [|[k0 v0] rest IH]; intros Hnd;
    [reflexivity|].
  unfold keys in Hnd. simpl in Hnd. apply NoDup_cons in Hnd.
  destruct Hnd as [Hk Hrest]. simpl. rewrite dict_get_app, IH by exact Hrest.
  simpl. destruct (String.eqb_spec k0 k) as [->|Hne].
  - apply dict_get_None in Hk. rewrite Hk. reflexivity.
  - destruct (dict_get rest k); reflexivity.
Qed.

Lemma dict_get_update d other k :
  dict_get (dict_update d other) k
    = match last_entry other k with Some v => Some v | None => dict_get d k end.
Proof.
  unfold dict_update. revert d.
  induction other as [|[k0 v0] rest IH]; intros d; [reflexivity|].
  simpl fold_left. rewrite IH, dict_get_set.
  change ((k0, v0) :: rest) with ([(k0, v0)] ++ rest).
  rewrite last_entry_app. destruct (last_entry rest k); [reflexivity|].
  unfold last_entry. simpl. destruct (String.eqb k0 k); reflexivity.
Qed.

Lemma leaves_of_items_cons k x rest :
  leaves_of_items ((k, x) :: rest)
    = (if is_dict x then leaves x else [(k, x)]) ++ leaves_of_items rest.
Proof. reflexivity. Qed.

Lemma flat_loop_lookup items : ∀ acc k,
  dict_get (flat_loop items acc) k
    = match last_entry (leaves_of_items items) k with
      | Some v => Some v
      | None => dict_get acc k
      end.
Proof.
  induction items as [items IHsub] using dict_nesting_ind.
  assert (Hgen : ∀ l, (∀ kv, kv ∈ l → kv ∈ items) →
            ∀ acc k,
              dict_get (flat_loop l acc) k
                = match last_entry (leaves_of_items l) k with
                  | Some v => Some v
                  | None => dict_get acc k
                  end).
  { induction l as [|[k0 x] rest IH]; intros Hsub acc k; [reflexivity|].
    rewrite flat_loop_cons, leaves_of_items_cons, last_entry_app.
    rewrite IH by (intros kv Hin; apply Hsub, elem_of_cons; right; exact Hin).
    destruct (last_entry (leaves_of_items rest) k); [reflexivity|].
    destruct x as [| | | | | | |sub]; simpl is_dict; cbv iota;
      try (rewrite dict_get_set; unfold last_entry; simpl;
           destruct (String.eqb k0 k); reflexivity).
    rewrite dict_get_update.
    rewrite last_entry_NoDup by apply (get_flat_dict_flat sub).
    rewrite flatten_ODict, leaves_ODict.
    rewrite (IHsub k0 sub) by (apply Hsub, elem_of_cons; left; reflexivity).
    simpl. destruct (last_entry (leaves_of_items sub) k); reflexivity. }
  apply Hgen. auto.
Qed.

(** X19. A key of the flattened dict is the key of an entry, at any depth,
    whose value is no dict, and it maps to the value of the last such entry
    in traversal order: an inner entry met later replaces an outer one of
    the same name, and the keys of the nested dicts themselves are gone. *)
Theorem get_flat_dict_lookup (d : dict) (k : string) :
  dict_get (get_flat_dict d) k = last_entry (leaves (ODict d)) k.
Proof.
  unfold get_flat_dict. rewrite flatten_ODict, leaves_ODict, flat_loop_lookup.
  simpl. destruct (last_entry (leaves_of_items d) k); reflexivity.
Qed.

(** *** Artifacts and shapes *)

Inductive exn :=
| UnboundLocalError
| IndexError
| TypeError
| KeyError.

Inductive result (A : Type) :=
| Ok (a : A)
| Raise (e : exn).
Arguments Ok {A} a.
Arguments Raise {A} e.

(** An exception ends the statements that follow. *)
#[export] Instance result_bind : MBind result :=
  λ A B (f : A → result B) (r : result A),
    match r with
    | Ok a => f a
    | Raise e => Raise e
    end.

(** A config or processor, as [get_flat_artifact_dict] tells them apart:
    an instance of [ProcessorMixin] with its [attributes]; an object with a
    [to_dict] method, given by the dict it returns; any other object, given
    by the dict of its [dir()] names to their [getattr] values, or by
    [None] if one of these [getattr] calls raises. *)
#[local] Unset Elimination Schemes.
Inductive artifact :=
| ProcessorMixin (attributes : list artifact)
| HasToDict (to_dict : dict)
| Plain (attrs : option dict).
#[local] Set Elimination Schemes.

(** [{k: v for k, v in d.items() if v is not None}] *)
Definition is_none (v : pyobj) : bool :=
  match v with
  | ONone => true
  | _ => false
  end.

Definition drop_none (d : dict) : dict :=
  List.filter (λ kv, negb (is_none kv.2)) d.

Fixpoint get_flat_artifact_dict (a : artifact) : result dict :=
  match a with
  | ProcessorMixin attributes =>
      artifact_dict ←
        (fix loop (attributes : list artifact) (artifact_dict : dict)
           : result dict :=
           match attributes with
           | [] => Ok artifact_dict
           | attribute :: rest =>
               d ← get_flat_artifact_dict attribute ;
               loop rest (dict_update artifact_dict d)
           end) attributes [] ;
      Ok (get_flat_dict artifact_dict)
  | HasToDict to_dict => Ok (get_flat_dict (drop_none to_dict))
  | Plain (Some attrs) => Ok (get_flat_dict (drop_none attrs))
  | Plain None => Raise UnboundLocalError
  end.

(** [v[i]] for a non-negative literal [i] *)
Definition subscript (v : pyobj) (i : nat) : result pyobj :=
  match v with
  | OList l | OTuple l =>
      match l !! i with
      | Some x => Ok x
      | None => Raise IndexError
      end
  | OStr s =>
      match String.get i s with
      | Some c => Ok (OStr (String c EmptyString))
      | None => Raise IndexError
      end
  | ODict _ => Raise KeyError
  | ONone | OBool _ | OInt _ | OFloat _ => Raise TypeError
  end.

(** [len(v)] *)
Definition py_len (v : pyobj) : result Z :=
  match v with
  | OList l | OTuple l => Ok (Z.of_nat (length l))
  | ODict items => Ok (Z.of_nat (length items))
  | OStr s => Ok (Z.of_nat (String.length s))
  | ONone | OBool _ | OInt _ | OFloat _ => Raise TypeError
  end.

(** [if src in flat: shapes[dst] = flat[src]] *)
Definition copy_key (flat : dict) (src dst : string) (shapes : dict) : dict :=
  match dict_get flat src with
  | Some v => dict_set shapes dst v
  | None => shapes
  end.

(** The branches on the type of [image_size]. *)
Definition image_size_shapes (image_size : pyobj) (shapes : dict) : result dict :=
  match image_size with
  | OBool _ | OInt _ | OFloat _ =>
      Ok (dict_set (dict_set shapes "height" image_size) "width" image_size)
  | OList _ | OTuple _ =>
      h ← subscript image_size 0 ;
      let shapes := dict_set shapes "height" h in
      w ← subscript image_size 0 ;
      Ok (dict_set shapes "width" w)
  | ODict items =>
      match map snd items with
      | [v0; v1] => Ok (dict_set (dict_set shapes "height" v0) "width" v1)
      | [v0] => Ok (dict_set (dict_set shapes "height" v0) "width" v0)
      | _ => Ok shapes
      end
  | ONone | OStr _ => Ok shapes
  end.

(** [if "input_size" in flat: ...] *)
Definition input_size_shapes (flat shapes : dict) : result dict :=
  match dict_get flat "input_size" with
  | Some input_size =>
      c ← subscript input_size 0 ;
      let shapes := dict_set shapes "num_channels" c in
      h ← subscript input_size 1 ;
      let shapes := dict_set shapes "height" h in
      w ← subscript input_size 2 ;
      Ok (dict_set shapes "width" w)
  | None => Ok shapes
  end.

(** [if "id2label" in flat: ... elif "num_classes" in flat: ...] *)
Definition label_shapes (flat shapes : dict) : result dict :=
  match dict_get flat "id2label" with
  | Some id2label =>
      n ← py_len id2label ;
      Ok (dict_set shapes "num_labels" (OInt n))
  | None => Ok (copy_key flat "num_classes" "num_labels" shapes)
  end.

(** The body of [extract_transformers_shapes_from_artifacts] from
    [shapes = {}] on. *)
Definition shapes_of_flat (flat_artifacts_dict : dict) : result dict :=
  let flat := flat_artifacts_dict in
  let shapes : dict := [] in
  (* text input *)
  let shapes := copy_key flat "vocab_size" "vocab_size" shapes in
  let shapes := copy_key flat "type_vocab_size" "type_vocab_size" shapes in
  let shapes :=
    match dict_get flat "max_position_embeddings" with
    | Some v => dict_set shapes "max_position_embeddings" v
    | None => copy_key flat "n_positions" "max_position_embeddings" shapes
    end in
  (* image input *)
  let shapes :=
    match dict_get flat "num_channels" with
    | Some _ =>
        dict_set shapes "num_channels"
          (match dict_get flat "channels" with Some v => v | None => ONone end)
    | None => shapes
    end in
  let image_size :=
    match dict_get flat "image_size" with
    | Some v => v
    | None =>
        match dict_get flat "size" with
        | Some v => v
        | None => ONone
        end
    end in
  shapes ← image_size_shapes image_size shapes ;
  shapes ← input_size_shapes flat shapes ;
  (* classification labels *)
  shapes ← label_shapes flat shapes ;
  (* object detection labels *)
  let shapes := copy_key flat "num_queries" "num_queries" shapes in
  (* image-text input *)
  let shapes := copy_key flat "image_token_id" "image_token_id" shapes in
  let shapes := copy_key flat "in_chans" "num_channels" shapes in
  let shapes := copy_key flat "patch_size" "patch_size" shapes in
  let shapes := copy_key flat "temporal_patch_size" "temporal_patch_size" shapes in
  let shapes := copy_key flat "spatial_merge_size" "spatial_merge_size" shapes in
  Ok shapes.

Definition extract_transformers_shapes_from_artifacts
    (config processor : option artifact) : result dict :=
  let flat_artifacts_dict : dict := [] in
  flat_artifacts_dict ←
    match config with
    | Some config =>
        d ← get_flat_artifact_dict config ;
        Ok (dict_update flat_artifacts_dict d)
    | None => Ok flat_artifacts_dict
    end ;
  flat_artifacts_dict ←
    match processor with
    | Some processor =>
        d ← get_flat_artifact_dict processor ;
        Ok (dict_update flat_artifacts_dict d)
    | None => Ok flat_artifacts_dict
    end ;
  shapes_of_flat flat_artifacts_dict.

(** *** Properties of the shape extraction *)

Lemma dict_get_set_ne d k v k' : k ≠ k' → dict_get (dict_set d k v) k' = dict_get d k'.
Proof.
  intros Hne. rewrite dict_get_set.
  destruct (String.eqb_spec k k'); [congruence | reflexivity].
Qed.

Lemma dict_get_set_eq d k v : dict_get (dict_set d k v) k = Some v.
Proof. rewrite dict_get_set, String.eqb_refl. reflexivity. Qed.

Lemma dict_get_copy_key_ne flat src dst s k :
  dst ≠ k → dict_get (copy_key flat src dst s) k = dict_get s k.
Proof.
  intros Hne. unfold copy_key.
  destruct (dict_get flat src); [apply dict_get_set_ne; exact Hne | reflexivity].
Qed.

Lemma dict_get_copy_key_eq flat src dst s :
  dict_get (copy_key flat src dst s) dst
    = match dict_get flat src with Some v => Some v | None => dict_get s dst end.
Proof.
  unfold copy_key. destruct (dict_get flat src); [apply dict_get_set_eq | reflexivity].
Qed.

(** A step of the extraction that writes keys of [written] only. *)
Definition writes_only (written : list string) (s s' : dict) : Prop :=
  ∀ k, k ∉ written → dict_get s' k = dict_get s k.

Lemma image_size_shapes_frame v s s' :
  image_size_shapes v s = Ok s' →
  writes_only ["height"; "width"]%string s s'.
Proof.
  intros H k Hk. rewrite !not_elem_of_cons in Hk. destruct Hk as (Hh & Hw & _).
  assert (Hset : ∀ a b, dict_get (dict_set (dict_set s "height" a) "width" b) k
                        = dict_get s k).
  { intros a b. rewrite !dict_get_set_ne by congruence. reflexivity. }
  destruct v as [| | | | |l|l|items]; simpl in H;
    try (injection H as <-; first [reflexivity | apply Hset]).
  - destruct l as [|x l]; simpl in H; [discriminate|].
    injection H as <-. apply Hset.
  - destruct l as [|x l]; simpl in H; [discriminate|].
    injection H as <-. apply Hset.
  - destruct (map snd items) as [|v0 [|v1 [|v2 vs]]]; injection H as <-;
      first [reflexivity | apply Hset].
Qed.

Lemma input_size_shapes_frame flat s s' :
  input_size_shapes flat s = Ok s' →
  writes_only ["num_channels"; "height"; "width"]%string s s'.
Proof.
  intros H k Hk. rewrite !not_elem_of_cons in Hk. destruct Hk as (Hc & Hh & Hw & _).
  unfold input_size_shapes in H.
  destruct (dict_get flat "input_size") as [v|]; [|injection H as <-; reflexivity].
  destruct (subscript v 0) as [c|]; simpl in H; [|discriminate].
  destruct (subscript v 1) as [h|]; simpl in H; [|discriminate].
  destruct (subscript v 2) as [w|]; simpl in H; [|discriminate].
  injection H as <-. rewrite !dict_get_set_ne by congruence. reflexivity.
Qed.

Lemma label_shapes_frame flat s s' :
  label_shapes flat s = Ok s' → writes_only ["num_labels"%string] s s'.
Proof.
  intros H k Hk. rewrite !not_elem_of_cons in Hk. destruct Hk as (Hl & _).
  unfold label_shapes in H.
  destruct (dict_get flat "id2label") as [v|].
  - destruct (py_len v) as [n|]; simpl in H; [|discriminate].
    injection H as <-. apply dict_get_set_ne. congruence.
  - injection H as <-. apply dict_get_copy_key_ne. congruence.
Qed.

(** The shapes before the three steps that can raise, and after them. *)
Definition text_shapes (flat : dict) : dict :=
  let shapes := copy_key flat "vocab_size" "vocab_size" [] in
  let shapes := copy_key flat "type_vocab_size" "type_vocab_size" shapes in
  let shapes :=
    match dict_get flat "max_position_embeddings" with
    | Some v => dict_set shapes "max_position_embeddings" v
    | None => copy_key flat "n_positions" "max_position_embeddings" shapes
    end in
  match dict_get flat "num_channels" with
  | Some _ =>
      dict_set shapes "num_channels"
        (match dict_get flat "channels" with Some v => v | None => ONone end)
  | None => shapes
  end.

Definition picked_image_size (flat : dict) : pyobj :=
  match dict_get flat "image_size" with
  | Some v => v
  | None =>
      match dict_get flat "size" with
      | Some v => v
      | None => ONone
      end
  end.

Definition last_shapes (flat shapes : dict) : dict :=
  let shapes := copy_key flat "num_queries" "num_queries" shapes in
  let shapes := copy_key flat "image_token_id" "image_token_id" shapes in
  let shapes := copy_key flat "in_chans" "num_channels" shapes in
  let shapes := copy_key flat "patch_size" "patch_size" shapes in
  let shapes := copy_key flat "temporal_patch_size" "temporal_patch_size" shapes in
  copy_key flat "spatial_merge_size" "spatial_merge_size" shapes.

Lemma shapes_of_flat_steps flat :
  shapes_of_flat flat
    = (s1 ← image_size_shapes (picked_image_size flat) (text_shapes flat);
       s2 ← input_size_shapes flat s1;
       s3 ← label_shapes flat s2;
       Ok (last_shapes flat s3)).
Proof. reflexivity. Qed.

Lemma shapes_of_flat_Ok flat shapes :
  shapes_of_flat flat = Ok shapes →
  ∃ s1 s2 s3,
    image_size_shapes (picked_image_size flat) (text_shapes flat) = Ok s1
    ∧ input_size_shapes flat s1 = Ok s2
    ∧ label_shapes flat s2 = Ok s3
    ∧ shapes = last_shapes flat s3.
Proof.
  rewrite shapes_of_flat_steps. intros H.
  destruct (image_size_shapes _ _) as [s1|]; simpl in H; [|discriminate].
  destruct (input_size_shapes flat s1) as [s2|] eqn:H2; simpl in H; [|discriminate].
  destruct (label_shapes flat s2) as [s3|] eqn:H3; simpl in H; [|discriminate].
  injection H as <-. exists s1, s2, s3. auto.
Qed.

(** The keys [shapes] can get. *)
Definition shape_names : list string :=
  ["vocab_size"; "type_vocab_size"; "max_position_embeddings"; "num_channels";
   "height"; "width"; "num_labels"; "num_queries"; "image_token_id";
   "patch_size"; "temporal_patch_size"; "spatial_merge_size"]%string.

Definition has_key (d : dict) (k : string) : Prop := dict_get d k ≠ None.

(** Only known names, and height and width together or not at all. *)
Definition shapes_inv (s : dict) : Prop :=
  (∀ k, has_key s k → k ∈ shape_names)
  ∧ (has_key s "height" ↔ has_key s "width").

Ltac in_names :=
  solve [unfold shape_names;
         repeat first [apply list_elem_of_here | apply list_elem_of_further]].

Lemma has_key_set d k0 v k :
  has_key (dict_set d k0 v) k ↔ k = k0 ∨ has_key d k.
Proof.
  unfold has_key. rewrite dict_get_set.
  destruct (String.eqb_spec k0 k) as [->|Hne]; split; try tauto; try congruence.
  intros [->|H]; [congruence | exact H].
Qed.

Lemma shapes_inv_nil : shapes_inv [].
Proof. split; [intros k H; exfalso; apply H; reflexivity|]. unfold has_key. simpl. tauto. Qed.

Lemma shapes_inv_set s k0 v :
  shapes_inv s → k0 ∈ shape_names → k0 ≠ "height"%string → k0 ≠ "width"%string →
  shapes_inv (dict_set s k0 v).
Proof.
  intros [Hnames Hpair] Hk0 Hh Hw. split.
  - intros k Hk. apply has_key_set in Hk. destruct Hk as [->|Hk]; auto.
  - rewrite !has_key_set. split; (intros [H|H]; [congruence | right; tauto]).
Qed.

Lemma shapes_inv_copy flat src s k0 :
  shapes_inv s → k0 ∈ shape_names → k0 ≠ "height"%string → k0 ≠ "width"%string →
  shapes_inv (copy_key flat src k0 s).
Proof.
  intros Hs ? ? ?. unfold copy_key.
  destruct (dict_get flat src); [apply shapes_inv_set; assumption | exact Hs].
Qed.

Lemma shapes_inv_height_width s h w :
  shapes_inv s →
  shapes_inv (dict_set (dict_set s "height" h) "width" w).
Proof.
  intros [Hnames Hpair]. split.
  - intros k Hk. rewrite !has_key_set in Hk.
    destruct Hk as [->|[->|Hk]]; [in_names | in_names | auto].
  - rewrite !has_key_set. split; intros _; [left; reflexivity | right; left; reflexivity].
Qed.

Ltac solve_name := first [in_names | discriminate].

Lemma shapes_inv_text flat : shapes_inv (text_shapes flat).
Proof.
  unfold text_shapes.
  destruct (dict_get flat "num_channels");
    destruct (dict_get flat "max_position_embeddings");
    repeat first [ solve_name | apply shapes_inv_nil
                 | apply shapes_inv_set | apply shapes_inv_copy ].
Qed.

Lemma shapes_inv_image_size v s s' :
  image_size_shapes v s = Ok s' → shapes_inv s → shapes_inv s'.
Proof.
  intros H Hs.
  destruct v as [| | | | |l|l|items]; simpl in H;
    try (injection H as <-; first [exact Hs | apply shapes_inv_height_width, Hs]).
  - destruct l as [|x l]; simpl in H; [discriminate|].
    injection H as <-. apply shapes_inv_height_width, Hs.
  - destruct l as [|x l]; simpl in H; [discriminate|].
    injection H as <-. apply shapes_inv_height_width, Hs.
  - destruct (map snd items) as [|v0 [|v1 [|v2 vs]]]; injection H as <-;
      first [exact Hs | apply shapes_inv_height_width, Hs].
Qed.

Lemma shapes_inv_input_size flat s s' :
  input_size_shapes flat s = Ok s' → shapes_inv s → shapes_inv s'.
Proof.
  intros H Hs. unfold input_size_shapes in H.
  destruct (dict_get flat "input_size") as [v|]; [|injection H as <-; exact Hs].
  destruct (subscript v 0) as [c|]; simpl in H; [|discriminate].
  destruct (subscript v 1) as [h|]; simpl in H; [|discriminate].
  destruct (subscript v 2) as [w|]; simpl in H; [|discriminate].
  injection H as <-. apply shapes_inv_height_width.
  apply shapes_inv_set; [exact Hs | solve_name..].
Qed.

Lemma shapes_inv_label flat s s' :
  label_shapes flat s = Ok s' → shapes_inv s → shapes_inv s'.
Proof.
  intros H Hs. unfold label_shapes in H.
  destruct (dict_get flat "id2label") as [v|].
  - destruct (py_len v) as [n|]; simpl in H; [|discriminate].
    injection H as <-. apply shapes_inv_set; [exact Hs | solve_name..].
  - injection H as <-. apply shapes_inv_copy; [exact Hs | solve_name..].
Qed.

Lemma shapes_inv_last flat s : shapes_inv s → shapes_inv (last_shapes flat s).
Proof.
  intros Hs. unfold last_shapes.
  repeat first [ exact Hs | solve_name | apply shapes_inv_copy ].
Qed.

(** X20. The extracted shapes use the twelve known names only, and they
    hold a height exactly when they hold a width. *)
Theorem shapes_known_names_and_paired_sizes (flat shapes : dict) :
  shapes_of_flat flat = Ok shapes →
  (∀ k, has_key shapes k → k ∈ shape_names)
  ∧ (has_key shapes "height" ↔ has_key shapes "width").
Proof.
  intros H. destruct (shapes_of_flat_Ok _ _ H) as (s1 & s2 & s3 & H1 & H2 & H3 & ->).
  apply shapes_inv_last.
  apply (shapes_inv_label _ _ _ H3).
  apply (shapes_inv_input_size _ _ _ H2).
  apply (shapes_inv_image_size _ _ _ H1).
  apply shapes_inv_text.
Qed.

Lemma dict_get_copy_key flat src dst s k :
  dict_get (copy_key flat src dst s) k
    = if String.eqb dst k
      then match dict_get flat src with Some v => Some v | None => dict_get s k end
      else dict_get s k.
Proof.
  destruct (String.eqb_spec dst k) as [->|Hne].
  - apply dict_get_copy_key_eq.
  - apply dict_get_copy_key_ne. exact Hne.
Qed.

(** Look a literal key up in a dict built by literal assignments. *)
Ltac lookup_literal :=
  repeat first [ rewrite dict_get_copy_key_eq
               | rewrite dict_get_set_eq
               | rewrite dict_get_copy_key_ne by discriminate
               | rewrite dict_get_set_ne by discriminate ];
  cbn [dict_get].

Ltac not_written :=
  rewrite !not_elem_of_cons; repeat split;
  first [discriminate | apply not_elem_of_nil].

Lemma last_shapes_ext flat s s' k :
  dict_get s k = dict_get s' k →
  dict_get (last_shapes flat s) k = dict_get (last_shapes flat s') k.
Proof.
  intros H. unfold last_shapes. rewrite !dict_get_copy_key, H. reflexivity.
Qed.

Lemma shapes_lookup_text flat shapes k :
  shapes_of_flat flat = Ok shapes →
  k ∉ ["num_channels"; "height"; "width"; "num_labels"]%string →
  dict_get shapes k = dict_get (last_shapes flat (text_shapes flat)) k.
Proof.
  intros H Hk. destruct (shapes_of_flat_Ok _ _ H) as (s1 & s2 & s3 & H1 & H2 & H3 & ->).
  rewrite !not_elem_of_cons in Hk. destruct Hk as (Hc & Hh & Hw & Hl & _).
  apply last_shapes_ext.
  rewrite (label_shapes_frame _ _ _ H3)
    by (rewrite !not_elem_of_cons; repeat split; auto using not_elem_of_nil).
  rewrite (input_size_shapes_frame _ _ _ H2)
    by (rewrite !not_elem_of_cons; repeat split; auto using not_elem_of_nil).
  apply (image_size_shapes_frame _ _ _ H1).
  rewrite !not_elem_of_cons; repeat split; auto using not_elem_of_nil.
Qed.

(** The keys that are copied under their own name. *)
Definition copied_names : list string :=
  ["vocab_size"; "type_vocab_size"; "num_queries"; "image_token_id";
   "patch_size"; "temporal_patch_size"; "spatial_merge_size"]%string.

(** X21. Seven entries are copied as they are, present in the shapes
    exactly when present in the flat dict and with the same value; the
    maximum position comes from "max_position_embeddings" and only in its
    absence from "n_positions". *)
Theorem shapes_copy_text_and_patch_keys (flat shapes : dict) :
  shapes_of_flat flat = Ok shapes →
  (∀ k, k ∈ copied_names → dict_get shapes k = dict_get flat k)
  ∧ dict_get shapes "max_position_embeddings"
      = match dict_get flat "max_position_embeddings" with
        | Some v => Some v
        | None => dict_get flat "n_positions"
        end.
Proof.
  intros H. split.
  - intros k Hk. unfold copied_names in Hk. rewrite !elem_of_cons in Hk.
    rewrite elem_of_nil in Hk.
    destruct Hk as [->|[->|[->|[->|[->|[->|[->|[]]]]]]]];
      rewrite (shapes_lookup_text _ _ _ H) by not_written;
      unfold last_shapes, text_shapes;
      destruct (dict_get flat "max_position_embeddings");
      destruct (dict_get flat "num_channels");
      lookup_literal;
      repeat match goal with
             | |- context [match dict_get flat ?x with _ => _ end] =>
                 destruct (dict_get flat x)
             end; reflexivity.
  - rewrite (shapes_lookup_text _ _ _ H) by not_written.
    unfold last_shapes, text_shapes.
    destruct (dict_get flat "max_position_embeddings");
      destruct (dict_get flat "num_channels");
      lookup_literal;
      repeat match goal with
             | |- context [match dict_get flat ?x with _ => _ end] =>
                 destruct (dict_get flat x)
             end; reflexivity.
Qed.

Definition to_option {A} (r : result A) : option A :=
  match r with
  | Ok a => Some a
  | Raise _ => None
  end.

Lemma input_size_shapes_Some flat v s s' :
  dict_get flat "input_size" = Some v →
  input_size_shapes flat s = Ok s' →
  ∃ c h w, subscript v 0 = Ok c ∧ subscript v 1 = Ok h ∧ subscript v 2 = Ok w
           ∧ s' = dict_set (dict_set (dict_set s "num_channels" c) "height" h)
                           "width" w.
Proof.
  intros Hv H. unfold input_size_shapes in H. rewrite Hv in H.
  destruct (subscript v 0) as [c|]; simpl in H; [|discriminate].
  destruct (subscript v 1) as [h|]; simpl in H; [|discriminate].
  destruct (subscript v 2) as [w|]; simpl in H; [|discriminate].
  injection H as <-. exists c, h, w. auto.
Qed.

Lemma input_size_shapes_None flat s :
  dict_get flat "input_size" = None → input_size_shapes flat s = Ok s.
Proof. intros Hv. unfold input_size_shapes. rewrite Hv. reflexivity. Qed.

Lemma shapes_num_channels (flat shapes : dict) :
  shapes_of_flat flat = Ok shapes →
  dict_get shapes "num_channels"
    = match dict_get flat "in_chans" with
      | Some v => Some v
      | None =>
          match dict_get flat "input_size" with
          | Some input_size => to_option (subscript input_size 0)
          | None =>
              match dict_get flat "num_channels" with
              | Some _ =>
                  Some (match dict_get flat "channels" with
                        | Some v => v
                        | None => ONone
                        end)
              | None => None
              end
          end
      end.
Proof.
  intros H. destruct (shapes_of_flat_Ok _ _ H) as (s1 & s2 & s3 & H1 & H2 & H3 & ->).
  unfold last_shapes. lookup_literal.
  destruct (dict_get flat "in_chans"); [reflexivity|].
  rewrite (label_shapes_frame _ _ _ H3) by not_written.
  destruct (dict_get flat "input_size") as [v|] eqn:Hv.
  - destruct (input_size_shapes_Some _ _ _ _ Hv H2) as (c & h & w & Hc & _ & _ & ->).
    lookup_literal. rewrite Hc. reflexivity.
  - rewrite (input_size_shapes_None _ _ Hv) in H2. injection H2 as <-.
    rewrite (image_size_shapes_frame _ _ _ H1) by not_written.
    unfold text_shapes.
    destruct (dict_get flat "num_channels");
      destruct (dict_get flat "max_position_embeddings");
      lookup_literal;
      repeat match goal with
             | |- context [match dict_get flat ?x with _ => _ end] =>
                 destruct (dict_get flat x)
             end; reflexivity.
Qed.

Lemma shapes_num_labels (flat shapes : dict) :
  shapes_of_flat flat = Ok shapes →
  dict_get shapes "num_labels"
    = match dict_get flat "id2label" with
      | Some id2label => OInt <$> to_option (py_len id2label)
      | None => dict_get flat "num_classes"
      end.
Proof.
  intros H. destruct (shapes_of_flat_Ok _ _ H) as (s1 & s2 & s3 & H1 & H2 & H3 & ->).
  unfold last_shapes. lookup_literal.
  unfold label_shapes in H3.
  destruct (dict_get flat "id2label") as [v|].
  - destruct (py_len v) as [n|]; simpl in H3; [|discriminate].
    injection H3 as <-. lookup_literal. reflexivity.
  - injection H3 as <-. lookup_literal.
    destruct (dict_get flat "num_classes"); [reflexivity|].
    rewrite (input_size_shapes_frame _ _ _ H2) by not_written.
    rewrite (image_size_shapes_frame _ _ _ H1) by not_written.
    unfold text_shapes.
    destruct (dict_get flat "num_channels");
      destruct (dict_get flat "max_position_embeddings");
      lookup_literal;
      repeat match goal with
             | |- context [match dict_get flat ?x with _ => _ end] =>
                 destruct (dict_get flat x)
             end; reflexivity.
Qed.

(** X22. Where the number of channels and of labels come from.  The
    channels are "in_chans" if present, else the first element of
    "input_size" if present, else, when there is a "num_channels" entry, the
    value of "channels" (or [None] without one: the "num_channels" value
    itself is not read).  The labels are the length of "id2label" if
    present, else "num_classes". *)
Theorem shapes_channels_and_labels_sources (flat shapes : dict) :
  shapes_of_flat flat = Ok shapes →
  dict_get shapes "num_channels"
    = match dict_get flat "in_chans" with
      | Some v => Some v
      | None =>
          match dict_get flat "input_size" with
          | Some input_size => to_option (subscript input_size 0)
          | None =>
              match dict_get flat "num_channels" with
              | Some _ =>
                  Some (match dict_get flat "channels" with
                        | Some v => v
                        | None => ONone
                        end)
              | None => None
              end
          end
      end
  ∧ dict_get shapes "num_labels"
      = match dict_get flat "id2label" with
        | Some id2label => OInt <$> to_option (py_len id2label)
        | None => dict_get flat "num_classes"
        end.
Proof.
  intros H. split; [apply shapes_num_channels | apply shapes_num_labels]; exact H.
Qed.

(** Height and width read off an image size, by its type. *)
Definition height_width_of (image_size : pyobj) : option (pyobj * pyobj) :=
  match image_size with
  | OBool _ | OInt _ | OFloat _ => Some (image_size, image_size)
  | OList (x :: _) | OTuple (x :: _) => Some (x, x)
  | ODict [(_, v0); (_, v1)] => Some (v0, v1)
  | ODict [(_, v0)] => Some (v0, v0)
  | _ => None
  end.

Lemma image_size_shapes_height_width v s s' :
  image_size_shapes v s = Ok s' →
  dict_get s "height" = None → dict_get s "width" = None →
  dict_get s' "height" = fst <$> height_width_of v
  ∧ dict_get s' "width" = snd <$> height_width_of v.
Proof.
  intros H Hh Hw.
  assert (Hset : ∀ a b,
            dict_get (dict_set (dict_set s "height" a) "width" b) "height" = Some a
            ∧ dict_get (dict_set (dict_set s "height" a) "width" b) "width" = Some b).
  { intros a b. split; lookup_literal; reflexivity. }
  destruct v as [| | | | |l|l|items]; simpl in H;
    try (injection H as <-; first [split; assumption | apply Hset]).
  - destruct l as [|x l]; simpl in H; [discriminate|].
    injection H as <-. apply Hset.
  - destruct l as [|x l]; simpl in H; [discriminate|].
    injection H as <-. apply Hset.
  - destruct items as [|[k0 v0] [|[k1 v1] [|[k2 v2] rest]]]; simpl in H;
      injection H as <-; first [split; assumption | apply Hset].
Qed.

Lemma text_shapes_no_size flat :
  dict_get (text_shapes flat) "height" = None
  ∧ dict_get (text_shapes flat) "width" = None.
Proof.
  unfold text_shapes.
  destruct (dict_get flat "num_channels");
    destruct (dict_get flat "max_position_embeddings");
    split; lookup_literal;
    repeat match goal with
           | |- context [match dict_get flat ?x with _ => _ end] =>
               destruct (dict_get flat x)
           end; reflexivity.
Qed.

(** X23. Height and width.  With an "input_size" entry they are its second
    and third element, whatever the image size says.  Without one they come
    from "image_size", or in its absence from "size": a number gives both,
    a list or tuple gives its first element for both (the second element
    is not read), a string or nothing gives neither. *)
Theorem shapes_height_and_width (flat shapes : dict) :
  shapes_of_flat flat = Ok shapes →
  match dict_get flat "input_size" with
  | Some input_size =>
      dict_get shapes "height" = to_option (subscript input_size 1)
      ∧ dict_get shapes "width" = to_option (subscript input_size 2)
  | None =>
      dict_get shapes "height" = fst <$> height_width_of (picked_image_size flat)
      ∧ dict_get shapes "width" = snd <$> height_width_of (picked_image_size flat)
  end.
Proof.
  intros H. destruct (shapes_of_flat_Ok _ _ H) as (s1 & s2 & s3 & H1 & H2 & H3 & ->).
  assert (Hlast : ∀ k, k = "height"%string ∨ k = "width"%string →
            dict_get (last_shapes flat s3) k = dict_get s2 k).
  { intros k [-> | ->]; unfold last_shapes; lookup_literal;
      apply (label_shapes_frame _ _ _ H3); not_written. }
  rewrite !Hlast by auto.
  destruct (dict_get flat "input_size") as [v|] eqn:Hv.
  - destruct (input_size_shapes_Some _ _ _ _ Hv H2) as (c & h & w & _ & Hh & Hw & ->).
    rewrite Hh, Hw. split; lookup_literal; reflexivity.
  - rewrite (input_size_shapes_None _ _ Hv) in H2. injection H2 as <-.
    destruct (text_shapes_no_size flat) as [Hh Hw].
    apply (image_size_shapes_height_width _ _ _ H1 Hh Hw).
Qed.

(** *** Where the extraction raises *)

Definition empty_sequence (v : pyobj) : Prop := v = OList [] ∨ v = OTuple [].

Lemma image_size_shapes_Ok_iff v s :
  (∃ s', image_size_shapes v s = Ok s') ↔ ¬ empty_sequence v.
Proof.
  unfold empty_sequence. split.
  - intros [s' H] [-> | ->]; discriminate H.
  - intros Hne. destruct v as [| | | | |[|x l]|[|x l]|items]; simpl;
      try (eexists; reflexivity); try (exfalso; apply Hne; auto; fail).
    destruct (map snd items) as [|v0 [|v1 [|v2 vs]]]; eexists; reflexivity.
Qed.

Lemma image_size_shapes_raises v s e :
  image_size_shapes v s = Raise e → e = IndexError.
Proof.
  destruct v as [| | | | |[|x l]|[|x l]|items]; simpl; try discriminate;
    try congruence.
  destruct (map snd items) as [|v0 [|v1 [|v2 vs]]]; discriminate.
Qed.

(** X24. The extraction raises in three cases only, and succeeds in all
    others: the image size is an empty list or tuple ([IndexError], raised
    before anything else is looked at), "input_size" cannot be subscripted
    with 0, 1 and 2, or "id2label" has no length. *)
Theorem shapes_of_flat_succeeds_iff (flat : dict) :
  ((∃ shapes, shapes_of_flat flat = Ok shapes) ↔
     ¬ empty_sequence (picked_image_size flat)
     ∧ (∀ v, dict_get flat "input_size" = Some v →
          ∃ c h w, subscript v 0 = Ok c ∧ subscript v 1 = Ok h
                   ∧ subscript v 2 = Ok w)
     ∧ (∀ v, dict_get flat "id2label" = Some v → ∃ n, py_len v = Ok n))
  ∧ (empty_sequence (picked_image_size flat) →
       shapes_of_flat flat = Raise IndexError).
Proof.
  split; [split|].
  - intros [shapes H].
    destruct (shapes_of_flat_Ok _ _ H) as (s1 & s2 & s3 & H1 & H2 & H3 & _).
    split; [|split].
    + apply (image_size_shapes_Ok_iff _ (text_shapes flat)).
      exists s1. exact H1.
    + intros v Hv.
      destruct (input_size_shapes_Some _ _ _ _ Hv H2) as (c & h & w & ? & ? & ? & _).
      exists c, h, w. auto.
    + intros v Hv. unfold label_shapes in H3. rewrite Hv in H3.
      destruct (py_len v) as [n|]; [exists n; reflexivity | discriminate].
  - intros (Himg & Hin & Hlab). rewrite shapes_of_flat_steps.
    apply (image_size_shapes_Ok_iff _ (text_shapes flat)) in Himg.
    destruct Himg as [s1 ->]. simpl.
    assert (H2 : ∃ s2, input_size_shapes flat s1 = Ok s2).
    { unfold input_size_shapes.
      destruct (dict_get flat "input_size") as [v|]; [|eauto].
      destruct (Hin v eq_refl) as (c & h & w & -> & -> & ->). simpl. eauto. }
    destruct H2 as [s2 ->]. simpl.
    assert (H3 : ∃ s3, label_shapes flat s2 = Ok s3).
    { unfold label_shapes.
      destruct (dict_get flat "id2label") as [v|]; [|eauto].
      destruct (Hlab v eq_refl) as [n ->]. simpl. eauto. }
    destruct H3 as [s3 ->]. simpl. eauto.
  - intros Hempty. rewrite shapes_of_flat_steps.
    destruct (image_size_shapes (picked_image_size flat) (text_shapes flat))
      as [s1|e] eqn:H1.
    + exfalso.
      apply (proj1 (image_size_shapes_Ok_iff (picked_image_size flat)
                      (text_shapes flat)));
        [exists s1; exact H1 | exact Hempty].
    + apply image_size_shapes_raises in H1. subst e. reflexivity.
Qed.

(** *** From artifacts to the flat dict *)

(** No [getattr] of the artifact, or of an attribute of a processor,
    raises. *)
Fixpoint readable (a : artifact) : bool :=
  match a with
  | ProcessorMixin attributes =>
      (fix all (attributes : list artifact) : bool :=
         match attributes with
         | [] => true
         | attribute :: rest => readable attribute && all rest
         end) attributes
  | HasToDict _ => true
  | Plain (Some _) => true
  | Plain None => false
  end.

Lemma get_flat_artifact_dict_spec : ∀ a,
  match get_flat_artifact_dict a with
  | Ok flat => readable a = true ∧ is_flat flat
  | Raise e => readable a = false ∧ e = UnboundLocalError
  end.
Proof.
  fix IH 1. intros [attributes | d | [d|]]; simpl.
  - assert (Hloop : ∀ acc,
      match
        (fix loop (attributes : list artifact) (artifact_dict : dict)
           : result dict :=
           match attributes with
           | [] => Ok artifact_dict
           | attribute :: rest =>
               d ← get_flat_artifact_dict attribute;
               loop rest (dict_update artifact_dict d)
           end) attributes acc
      with
      | Ok _ =>
          (fix all (attributes : list artifact) : bool :=
             match attributes with
             | [] => true
             | attribute :: rest => readable attribute && all rest
             end) attributes = true
      | Raise e =>
          (fix all (attributes : list artifact) : bool :=
             match attributes with
             | [] => true
             | attribute :: rest => readable attribute && all rest
             end) attributes = false ∧ e = UnboundLocalError
      end).
    { revert attributes. fix IHl 1. intros [|a rest] acc; [reflexivity|].
      specialize (IH a). simpl.
      destruct (get_flat_artifact_dict a) as [d|e]; simpl.
      - destruct IH as [-> _]. simpl. apply IHl.
      - destruct IH as [-> ->]. split; reflexivity. }
    specialize (Hloop []). simpl in Hloop.
    match goal with
    | |- context [mbind _ ?r] => destruct r as [ad|e]
    end; simpl.
    + split; [exact Hloop | apply flat_loop_is_flat, is_flat_nil].
    + exact Hloop.
  - split; [reflexivity | apply flat_loop_is_flat, is_flat_nil].
  - split; [reflexivity | apply flat_loop_is_flat, is_flat_nil].
  - split; reflexivity.
Qed.

Lemma get_flat_artifact_dict_Ok a flat :
  get_flat_artifact_dict a = Ok flat → is_flat flat.
Proof.
  intros H. pose proof (get_flat_artifact_dict_spec a) as Hs.
  rewrite H in Hs. tauto.
Qed.

Lemma dict_update_new acc d :
  NoDup (keys acc ++ keys d) → dict_update acc d = acc ++ d.
Proof.
  unfold dict_update. revert acc.
  induction d as [|[k v] rest IH]; intros acc Hnd; simpl.
  - rewrite app_nil_r. reflexivity.
  - assert (Hk : k ∉ keys acc).
    { apply NoDup_app in Hnd. destruct Hnd as (_ & Hdisj & _).
      intros Hin. apply (Hdisj k Hin). apply elem_of_cons. left. reflexivity. }
    rewrite dict_set_new by exact Hk. rewrite IH.
    + rewrite <- app_assoc. reflexivity.
    + unfold keys in *. rewrite map_app, <- app_assoc. exact Hnd.
Qed.

Lemma picked_image_size_flat flat :
  is_flat flat → is_dict (picked_image_size flat) = false.
Proof.
  intros Hflat. unfold picked_image_size.
  destruct (dict_get flat "image_size") as [v|] eqn:H1;
    [exact (is_flat_value _ _ _ Hflat H1)|].
  destruct (dict_get flat "size") as [v|] eqn:H2;
    [exact (is_flat_value _ _ _ Hflat H2) | reflexivity].
Qed.

(** X25. With a config and a processor that can both be read, the shapes
    are extracted from one flat dict in which an entry of the processor
    replaces the config's entry of the same name; no value of that dict is
    a dict, so that the image size is never one.  A config with an
    attribute that cannot be read makes the extraction raise
    [UnboundLocalError]; with neither config nor processor the shapes are
    empty. *)
Theorem shapes_from_config_and_processor :
  (∀ config processor fc fp,
     get_flat_artifact_dict config = Ok fc →
     get_flat_artifact_dict processor = Ok fp →
     extract_transformers_shapes_from_artifacts (Some config) (Some processor)
       = shapes_of_flat (dict_update fc fp)
     ∧ is_flat (dict_update fc fp)
     ∧ (∀ k, dict_get (dict_update fc fp) k
               = match dict_get fp k with
                 | Some v => Some v
                 | None => dict_get fc k
                 end)
     ∧ is_dict (picked_image_size (dict_update fc fp)) = false)
  ∧ (∀ config processor,
       readable config = false →
       extract_transformers_shapes_from_artifacts (Some config) processor
         = Raise UnboundLocalError)
  ∧ extract_transformers_shapes_from_artifacts None None = Ok [].
Proof.
  split; [|split; [|reflexivity]].
  - intros config processor fc fp Hc Hp.
    pose proof (get_flat_artifact_dict_Ok _ _ Hc) as Hfc.
    pose proof (get_flat_artifact_dict_Ok _ _ Hp) as Hfp.
    assert (Hflat : is_flat (dict_update fc fp))
      by (apply is_flat_update; [exact Hfc | apply Hfp]).
    split; [|split; [exact Hflat|split]].
    + unfold extract_transformers_shapes_from_artifacts. rewrite Hc, Hp. simpl.
      rewrite (dict_update_new [] fc) by apply Hfc. reflexivity.
    + intros k. rewrite dict_get_update, last_entry_NoDup by apply Hfp.
      reflexivity.
    + apply picked_image_size_flat, Hflat.
  - intros config processor Hr.
    pose proof (get_flat_artifact_dict_spec config) as Hs.
    unfold extract_transformers_shapes_from_artifacts.
    destruct (get_flat_artifact_dict config) as [fc|e]; [|].
    + destruct Hs as [Hs _]. congruence.
    + destruct Hs as [_ ->]. reflexivity.
Qed.

(** *** Concrete artifacts *)

Definition nested_config : dict :=
  [("a", OInt 1); ("n", ODict [("a", OInt 2); ("b", ONone)]);
   ("c", OList [ODict [("z", OInt 0)]])]%string.

Definition bert_flat : dict :=
  [("model_type", OStr "bert"); ("vocab_size", OInt 30522);
   ("type_vocab_size", OInt 2); ("n_positions", OInt 512);
   ("num_classes", OInt 3)]%string.

Definition bert_shapes : dict :=
  [("vocab_size", OInt 30522); ("type_vocab_size", OInt 2);
   ("max_position_embeddings", OInt 512); ("num_labels", OInt 3)]%string.

Definition image_flat : dict :=
  [("num_channels", OInt 3); ("image_size", OList [OInt 224; OInt 160]);
   ("patch_size", OInt 16)]%string.

Definition image_shapes : dict :=
  [("num_channels", ONone); ("height", OInt 224); ("width", OInt 224);
   ("patch_size", OInt 16)]%string.

Definition timm_flat : dict :=
  [("input_size", OTuple [OInt 3; OInt 384; OInt 256]);
   ("image_size", OInt 224); ("id2label", OList [OStr "cat"; OStr "dog"])]%string.

Definition timm_shapes : dict :=
  [("height", OInt 384); ("width", OInt 256); ("num_channels", OInt 3);
   ("num_labels", OInt 2)]%string.

Definition vit_config : artifact :=
  HasToDict
    [("model_type", OStr "vit"); ("image_size", OInt 224);
     ("patch_size", OInt 16); ("torch_dtype", ONone);
     ("id2label", ODict [("0", OStr "LABEL_0"); ("1", OStr "LABEL_1")])]%string.

Definition vit_processor : artifact :=
  HasToDict
    [("size", ODict [("height", OInt 224); ("width", OInt 224)]);
     ("patch_size", OInt 14)]%string.

Lemma get_flat_dict_result_is_flat_witness :
  dict_get (get_flat_dict nested_config) "a" = Some (OInt 2)
  ∧ is_dict (OInt 2) = false.
Proof.
  split; [reflexivity|].
  apply (proj1 (proj2 (get_flat_dict_result_is_flat nested_config)) "a"%string).
  reflexivity.
Defined.

Lemma get_flat_dict_of_flat_witness : get_flat_dict bert_flat = bert_flat.
Proof.
  apply (proj1 (get_flat_dict_of_flat bert_flat)). split.
  - apply (bool_decide_unpack _). vm_compute. exact I.
  - repeat constructor.
Defined.

Lemma shapes_known_names_and_paired_sizes_witness :
  has_key timm_shapes "height" ↔ has_key timm_shapes "width".
Proof.
  exact (proj2 (shapes_known_names_and_paired_sizes timm_flat timm_shapes eq_refl)).
Defined.

Lemma shapes_copy_text_and_patch_keys_witness :
  dict_get bert_shapes "vocab_size" = dict_get bert_flat "vocab_size"
  ∧ dict_get bert_shapes "max_position_embeddings" = Some (OInt 512).
Proof.
  destruct (shapes_copy_text_and_patch_keys bert_flat bert_shapes eq_refl)
    as [Hcopy Hmax].
  split; [|exact Hmax].
  apply Hcopy. unfold copied_names. apply list_elem_of_here.
Defined.

Lemma shapes_channels_and_labels_sources_witness :
  dict_get image_shapes "num_channels" = Some ONone
  ∧ dict_get timm_shapes "num_channels" = Some (OInt 3)
  ∧ dict_get timm_shapes "num_labels" = Some (OInt 2).
Proof.
  split; [|split].
  - exact (proj1 (shapes_channels_and_labels_sources image_flat image_shapes eq_refl)).
  - exact (proj1 (shapes_channels_and_labels_sources timm_flat timm_shapes eq_refl)).
  - exact (proj2 (shapes_channels_and_labels_sources timm_flat timm_shapes eq_refl)).
Defined.

Lemma shapes_height_and_width_witness :
  (dict_get image_shapes "height" = Some (OInt 224)
   ∧ dict_get image_shapes "width" = Some (OInt 224))
  ∧ (dict_get timm_shapes "height" = Some (OInt 384)
     ∧ dict_get timm_shapes "width" = Some (OInt 256)).
Proof.
  split.
  - exact (shapes_height_and_width image_flat image_shapes eq_refl).
  - exact (shapes_height_and_width timm_flat timm_shapes eq_refl).
Defined.

Lemma shapes_of_flat_succeeds_iff_witness :
  shapes_of_flat [("size"%string, OTuple [])] = Raise IndexError
  ∧ ∃ shapes, shapes_of_flat bert_flat = Ok shapes.
Proof.
  split.
  - apply (proj2 (shapes_of_flat_succeeds_iff [("size"%string, OTuple [])])).
    right. reflexivity.
  - apply (proj2 (proj1 (shapes_of_flat_succeeds_iff bert_flat))).
    split; [|split].
    + intros [H | H]; discriminate H.
    + intros v H. discriminate H.
    + intros v H. discriminate H.
Defined.

Lemma shapes_from_config_and_processor_witness :
  extract_transformers_shapes_from_artifacts (Some vit_config) (Some vit_processor)
    = Ok [("height", OInt 224); ("width", OInt 224); ("patch_size", OInt 14)]%string
  ∧ extract_transformers_shapes_from_artifacts (Some (Plain None)) None
    = Raise UnboundLocalError.
Proof.
  destruct shapes_from_config_and_processor as (Hboth & Hraise & _).
  split.
  - rewrite (proj1 (Hboth vit_config vit_processor _ _ eq_refl eq_refl)).
    reflexivity.
  - apply Hraise. reflexivity.
Defined.

(** *** [fast_weights_init] *)

(** A function bound to a name of [torch.nn.init]: the one torch defines
    under that name, [fast_random_tensor], or anything else. *)
Inductive init_fn :=
| torch_nn_init (name : string)
| fast_random_tensor
| other_fn (label : string).

(** The table, filled when the module is imported. *)
Definition TORCH_INIT_FUNCTIONS : list (string * init_fn) :=
  map (λ name, (name, torch_nn_init name))
    ["normal_"; "uniform_"; "trunc_normal_"; "xavier_normal_";
     "xavier_uniform_"; "kaiming_normal_"; "kaiming_uniform_"; "normal";
     "uniform"; "xavier_normal"; "xavier_uniform"; "kaiming_normal";
     "kaiming_uniform"]%string.

(** [for name, init_func in table.items(): if name != "uniform_":
    setattr(torch.nn.init, name, value(name, init_func))] *)
Definition set_all (value : string → init_fn → init_fn)
    (table : list (string * init_fn)) (nn_init : gmap string init_fn)
  : gmap string init_fn :=
  fold_left
    (λ ns entry,
       if negb (String.eqb entry.1 "uniform_")
       then <[entry.1 := value entry.1 entry.2]> ns
       else ns)
    table nn_init.

(** The loop before the [yield], and the loop of the [finally] arm. *)
Definition replace_all (nn_init : gmap string init_fn) : gmap string init_fn :=
  set_all (λ _ _, fast_random_tensor) TORCH_INIT_FUNCTIONS nn_init.

Definition restore_all (nn_init : gmap string init_fn) : gmap string init_fn :=
  set_all (λ _ init_func, init_func) TORCH_INIT_FUNCTIONS nn_init.

(** How the body of a [with] block ends. *)
Inductive outcome (E : Type) :=
| Normal
| Raised (e : E).
Arguments Normal {E}.
Arguments Raised {E} e.

(** [with fast_weights_init(): body]: the names are replaced, the body
    runs, and the [finally] arm puts the table's functions back, on a normal
    end and on an exception, which then goes on. *)
Definition fast_weights_init {E : Type}
    (body : gmap string init_fn → outcome E * gmap string init_fn)
    (nn_init : gmap string init_fn) : outcome E * gmap string init_fn :=
  let replaced := replace_all nn_init in
  let (result, after_body) := body replaced in
  (result, restore_all after_body).

Definition replaced_names : list string :=
  ["normal_"; "trunc_normal_"; "xavier_normal_";
   "xavier_uniform_"; "kaiming_normal_"; "kaiming_uniform_"; "normal";
   "uniform"; "xavier_normal"; "xavier_uniform"; "kaiming_normal";
   "kaiming_uniform"]%string.

Lemma set_all_other value table ns name :
  (name ∉ map fst table ∨ name = "uniform_"%string) →
  set_all value table ns !! name = ns !! name.
Proof.
  unfold set_all. revert ns.
  induction table as [|[n f] rest IH]; intros ns Hname; [reflexivity|].
  simpl fold_left. rewrite IH.
  - destruct (String.eqb_spec n "uniform_") as [->|Hne]; simpl; [reflexivity|].
    apply lookup_insert_ne. destruct Hname as [Hname | ->]; [|exact Hne].
    intros ->. apply Hname. simpl. apply list_elem_of_here.
  - destruct Hname as [Hname | ->]; [left | right; reflexivity].
    intros Hin. apply Hname. simpl. apply list_elem_of_further. exact Hin.
Qed.

Lemma set_all_entry value table ns name f :
  NoDup (map fst table) → (name, f) ∈ table → name ≠ "uniform_"%string →
  set_all value table ns !! name = Some (value name f).
Proof.
  unfold set_all. revert ns.
  induction table as [|[n g] rest IH]; intros ns Hnd Hin Hne; [inversion Hin|].
  simpl in Hnd. apply NoDup_cons in Hnd. destruct Hnd as [Hn Hrest].
  apply elem_of_cons in Hin. simpl fold_left. destruct Hin as [[= <- <-] | Hin].
  - fold (set_all value rest
            (if negb (String.eqb name "uniform_")
             then <[name := value name f]> ns else ns)).
    rewrite set_all_other by (left; exact Hn).
    apply String.eqb_neq in Hne. rewrite Hne. simpl. apply lookup_insert_eq.
  - apply IH; assumption.
Qed.

Lemma table_NoDup : NoDup (map fst TORCH_INIT_FUNCTIONS).
Proof. apply (bool_decide_unpack _). vm_compute. exact I. Qed.

(** X26. Inside the block every name of the table except "uniform_" is
    bound to [fast_random_tensor].  After the block each of them is bound
    to the function the table holds for it, whether the body ended normally
    or raised and whatever it did to these names in between; "uniform_" and
    all names outside the table are as the body left them, and the body's
    result, an exception included, is the block's result. *)
Theorem fast_weights_init_replaces_and_restores {E : Type}
    (body : gmap string init_fn → outcome E * gmap string init_fn)
    (nn_init : gmap string init_fn) :
  (∀ name f, (name, f) ∈ TORCH_INIT_FUNCTIONS → name ≠ "uniform_"%string →
     replace_all nn_init !! name = Some fast_random_tensor
     ∧ (fast_weights_init body nn_init).2 !! name = Some f)
  ∧ (∀ name, name ∉ map fst TORCH_INIT_FUNCTIONS ∨ name = "uniform_"%string →
       replace_all nn_init !! name = nn_init !! name
       ∧ (fast_weights_init body nn_init).2 !! name
           = (body (replace_all nn_init)).2 !! name)
  ∧ (fast_weights_init body nn_init).1 = (body (replace_all nn_init)).1.
Proof.
  unfold fast_weights_init.
  destruct (body (replace_all nn_init)) as [result after_body]. simpl.
  split; [|split; [|reflexivity]].
  - intros name f Hin Hne. split.
    + apply (set_all_entry (λ _ _, fast_random_tensor) _ _ name f);
        [exact table_NoDup | exact Hin | exact Hne].
    + apply (set_all_entry (λ _ init_func, init_func) _ _ name f);
        [exact table_NoDup | exact Hin | exact Hne].
  - intros name Hname. split; apply set_all_other; exact Hname.
Qed.

(** A body that loads a model and fails half-way, after it has itself
    rebound one of the names. *)
Definition failing_body (ns : gmap string init_fn)
  : outcome string * gmap string init_fn :=
  (Raised "OSError", <["normal_"%string := other_fn "patched"]> ns).

Lemma fast_weights_init_replaces_and_restores_witness :
  (fast_weights_init failing_body ∅).2 !! "normal_"%string
    = Some (torch_nn_init "normal_")
  ∧ (fast_weights_init failing_body ∅).2 !! "uniform_"%string = None
  ∧ (fast_weights_init failing_body ∅).1 = Raised "OSError".
Proof.
  pose proof (fast_weights_init_replaces_and_restores failing_body ∅)
    as (Hin & Hout & Hres).
  split; [|split].
  - apply (Hin "normal_"%string (torch_nn_init "normal_")); [|discriminate].
    apply list_elem_of_here.
  - rewrite (proj2 (Hout "uniform_"%string (or_intror eq_refl))). reflexivity.
  - exact Hres.
Defined.

End TransformersUtils.

(** ** optimum_benchmark/backends/py_txi/backend.py *)
Module PyTXI.

(** Values of the configuration fields and of keyword arguments. *)
Inductive pyval :=
| VNone
| VBool (b : bool)
| VInt (n : Z)
| VStr (s : string)
| VOther (repr : string)
| VBind (path bind mode : string).
    (* {path: {"bind": bind, "mode": mode}} *)

Definition is_none (v : pyval) : bool :=
  match v with
  | VNone => true
  | _ => false
  end.

(** The fields of [PyTXIConfig] that the backend reads. *)
Record PyTXIConfig := mkConfig {
  model : string;
  task : string;
  gpus : pyval;
  image : pyval;
  ports : pyval;
  volumes : pyval;
  devices : pyval;
  shm_size : pyval;
  environment : pyval;
  connection_timeout : pyval;
  first_request_timeout : pyval;
  max_concurrent_requests : pyval;
  dtype : pyval;
  pooling : pyval;
  sharded : pyval;
  quantize : pyval;
  num_shard : pyval;
  speculate : pyval;
  cuda_graphs : pyval;
  trust_remote_code : pyval;
  disable_custom_kernels : pyval
}.

(** [if value is not None: kwargs[name] = value] *)
Definition put (name : string) (value : pyval) (kwargs : gmap string pyval)
  : gmap string pyval :=
  if is_none value then kwargs else <[name := value]> kwargs.

Definition txi_kwargs (config : PyTXIConfig) : gmap string pyval :=
  let kwargs : gmap string pyval := ∅ in
  let kwargs := put "gpus" (gpus config) kwargs in
  let kwargs := put "image" (image config) kwargs in
  let kwargs := put "ports" (ports config) kwargs in
  let kwargs := put "volumes" (volumes config) kwargs in
  let kwargs := put "devices" (devices config) kwargs in
  let kwargs := put "shm_size" (shm_size config) kwargs in
  let kwargs := put "environment" (environment config) kwargs in
  let kwargs := put "connection_timeout" (connection_timeout config) kwargs in
  let kwargs := put "first_request_timeout" (first_request_timeout config) kwargs in
  let kwargs := put "max_concurrent_requests" (max_concurrent_requests config) kwargs in
  kwargs.

Definition tei_kwargs (config : PyTXIConfig) : gmap string pyval :=
  let kwargs : gmap string pyval := ∅ in
  let kwargs := put "dtype" (dtype config) kwargs in
  let kwargs := put "pooling" (pooling config) kwargs in
  kwargs.

Definition tgi_kwargs (config : PyTXIConfig) : gmap string pyval :=
  let kwargs : gmap string pyval := ∅ in
  let kwargs := put "dtype" (dtype config) kwargs in
  let kwargs := put "sharded" (sharded config) kwargs in
  let kwargs := put "quantize" (quantize config) kwargs in
  let kwargs := put "num_shard" (num_shard config) kwargs in
  let kwargs := put "speculate" (speculate config) kwargs in
  let kwargs := put "cuda_graphs" (cuda_graphs config) kwargs in
  let kwargs := put "trust_remote_code" (trust_remote_code config) kwargs in
  let kwargs := put "disable_custom_kernels" (disable_custom_kernels config) kwargs in
  kwargs.

Inductive exn :=
| NotImplementedError (msg : string)
| TypeError (msg : string).

Inductive result (A : Type) :=
| Ok (a : A)
| Raise (e : exn).
Arguments Ok {A} a.
Arguments Raise {A} e.

(** A call with two unpacked dicts of keyword arguments: a keyword given
    twice is a [TypeError]. *)
Definition star_star (kwargs more : gmap string pyval)
  : result (gmap string pyval) :=
  if decide (kwargs ##ₘ more) then Ok (kwargs ∪ more)
  else Raise (TypeError "got multiple values for keyword argument").

(** [TGI(config=TGIConfig(...))] and [TEI(config=TEIConfig(...))], by the
    keyword arguments of the config. *)
Inductive txi_model :=
| TGI (config : gmap string pyval)
| TEI (config : gmap string pyval).

Section Backend.

(** [TEXT_GENERATION_TASKS] and [TEXT_EMBEDDING_TASKS] come from
    [task_utils], which is not among the sources: they are parameters. *)
Variable TEXT_GENERATION_TASKS : list string.
Variable TEXT_EMBEDDING_TASKS : list string.

Record backend := mkBackend {
  config : PyTXIConfig;
  no_weights_model : string;
  pretrained_model : option txi_model
}.

Definition set_model (m : string) (c : PyTXIConfig) : PyTXIConfig :=
  mkConfig m (task c) (gpus c) (image c) (ports c) (volumes c) (devices c)
    (shm_size c) (environment c) (connection_timeout c)
    (first_request_timeout c) (max_concurrent_requests c) (dtype c)
    (pooling c) (sharded c) (quantize c) (num_shard c) (speculate c)
    (cuda_graphs c) (trust_remote_code c) (disable_custom_kernels c).

Definition set_volumes (v : pyval) (c : PyTXIConfig) : PyTXIConfig :=
  mkConfig (model c) (task c) (gpus c) (image c) (ports c) v (devices c)
    (shm_size c) (environment c) (connection_timeout c)
    (first_request_timeout c) (max_concurrent_requests c) (dtype c)
    (pooling c) (sharded c) (quantize c) (num_shard c) (speculate c)
    (cuda_graphs c) (trust_remote_code c) (disable_custom_kernels c).

(** The keyword arguments of the config: [model_id], then the two dicts
    unpacked. *)
Definition config_kwargs (model_id : string) (txi more : gmap string pyval)
  : result (gmap string pyval) :=
  match star_star {[ "model_id"%string := VStr model_id ]} txi with
  | Raise e => Raise e
  | Ok kwargs => star_star kwargs more
  end.

Definition load_model_from_pretrained (self : backend) : result backend :=
  let c := config self in
  if bool_decide (task c ∈ TEXT_GENERATION_TASKS) then
    match config_kwargs (model c) (txi_kwargs c) (tgi_kwargs c) with
    | Raise e => Raise e
    | Ok kwargs =>
        Ok (mkBackend c (no_weights_model self) (Some (TGI kwargs)))
    end
  else if bool_decide (task c ∈ TEXT_EMBEDDING_TASKS) then
    match config_kwargs (model c) (txi_kwargs c) (tei_kwargs c) with
    | Raise e => Raise e
    | Ok kwargs =>
        Ok (mkBackend c (no_weights_model self) (Some (TEI kwargs)))
    end
  else Raise (NotImplementedError ("TXI does not support task " ++ task c)).

(** A method that changes [self] and may raise after it has done so:
    the state it leaves, and how it ended. *)
Definition load_model_with_no_weights (self : backend)
  : backend * option exn :=
  let self :=
    mkBackend
      (set_volumes (VBind (no_weights_model self) "/no_weights_model/" "rw")
                   (config self))
      (no_weights_model self) (pretrained_model self) in
  let original_model := model (config self) in
  let self :=
    mkBackend (set_model "/no_weights_model/" (config self))
              (no_weights_model self) (pretrained_model self) in
  match load_model_from_pretrained self with
  | Raise e => (self, Some e)
  | Ok self =>
      (mkBackend (set_model original_model (config self))
                 (no_weights_model self) (pretrained_model self), None)
  end.

End Backend.

(** *** Properties of the keyword arguments *)

Definition txi_names : list string :=
  ["gpus"; "image"; "ports"; "volumes"; "devices"; "shm_size"; "environment";
   "connection_timeout"; "first_request_timeout"; "max_concurrent_requests"]%string.

Definition tei_names : list string := ["dtype"; "pooling"]%string.

Definition tgi_names : list string :=
  ["dtype"; "sharded"; "quantize"; "num_shard"; "speculate"; "cuda_graphs";
   "trust_remote_code"; "disable_custom_kernels"]%string.

Lemma put_lookup_Some name value kwargs k v :
  put name value kwargs !! k = Some v →
  (k = name ∧ v = value ∧ v ≠ VNone) ∨ kwargs !! k = Some v.
Proof.
  unfold put. destruct (is_none value) eqn:Hnone; [auto|].
  destruct (decide (name = k)) as [->|Hne].
  - rewrite lookup_insert_eq. intros [= <-]. left.
    repeat split. intros ->. discriminate.
  - rewrite lookup_insert_ne by exact Hne. auto.
Qed.

Ltac kwargs_entry H :=
  repeat (apply put_lookup_Some in H;
          destruct H as [(-> & -> & H) | H];
          [split; [solve [repeat first [apply list_elem_of_here
                                       | apply list_elem_of_further]]
                  | exact H] |]);
  rewrite lookup_empty in H; discriminate H.

Lemma txi_kwargs_entry c k v :
  txi_kwargs c !! k = Some v → k ∈ txi_names ∧ v ≠ VNone.
Proof. unfold txi_kwargs, txi_names. intros H. kwargs_entry H. Qed.

Lemma tei_kwargs_entry c k v :
  tei_kwargs c !! k = Some v → k ∈ tei_names ∧ v ≠ VNone.
Proof. unfold tei_kwargs, tei_names. intros H. kwargs_entry H. Qed.

Lemma tgi_kwargs_entry c k v :
  tgi_kwargs c !! k = Some v → k ∈ tgi_names ∧ v ≠ VNone.
Proof. unfold tgi_kwargs, tgi_names. intros H. kwargs_entry H. Qed.

Lemma names_apart k :
  k ∈ txi_names → ¬ (k ∈ tei_names ∨ k ∈ tgi_names ∨ k = "model_id"%string).
Proof.
  unfold txi_names, tei_names, tgi_names. rewrite !elem_of_cons, !elem_of_nil.
  intros H. repeat (destruct H as [->|H]; [intuition discriminate|]).
  destruct H.
Qed.

Lemma model_id_apart k :
  k ∈ tei_names ∨ k ∈ tgi_names → k ≠ "model_id"%string.
Proof.
  unfold tei_names, tgi_names. rewrite !elem_of_cons, !elem_of_nil.
  intros H ->. intuition discriminate.
Qed.

Lemma config_kwargs_Ok model_id c more (names : list string) :
  (∀ k v, more !! k = Some v → k ∈ names ∧ v ≠ VNone) →
  (∀ k, k ∈ names → k ∈ tei_names ∨ k ∈ tgi_names) →
  config_kwargs model_id (txi_kwargs c) more
    = Ok ({[ "model_id"%string := VStr model_id ]} ∪ txi_kwargs c ∪ more).
Proof.
  intros Hmore Hnames. unfold config_kwargs, star_star.
  rewrite decide_True.
  - rewrite decide_True; [reflexivity|].
    apply map_disjoint_spec. intros k x y Hx Hy.
    apply Hmore in Hy. destruct Hy as [Hk _]. apply Hnames in Hk.
    apply lookup_union_Some_raw in Hx. destruct Hx as [Hx | [_ Hx]].
    + apply lookup_singleton_Some in Hx. destruct Hx as [<- _].
      exact (model_id_apart _ Hk eq_refl).
    + apply txi_kwargs_entry in Hx. destruct Hx as [Hx _].
      apply (names_apart _ Hx). tauto.
  - apply map_disjoint_spec. intros k x y Hx Hy.
    apply lookup_singleton_Some in Hx. destruct Hx as [<- _].
    apply txi_kwargs_entry in Hy. destruct Hy as [Hy _].
    apply (names_apart _ Hy). auto.
Qed.

Lemma put_lookup_eq name value kwargs :
  put name value kwargs !! name
    = if is_none value then kwargs !! name else Some value.
Proof.
  unfold put. destruct (is_none value); [reflexivity | apply lookup_insert_eq].
Qed.

Lemma put_lookup_ne name value kwargs k :
  name ≠ k → put name value kwargs !! k = kwargs !! k.
Proof.
  intros Hne. unfold put.
  destruct (is_none value); [reflexivity | apply lookup_insert_ne; exact Hne].
Qed.

Ltac kwargs_lookup :=
  repeat first [ rewrite put_lookup_eq
               | rewrite put_lookup_ne by discriminate ];
  rewrite ?lookup_empty;
  repeat match goal with
         | |- context [is_none ?v] => destruct (is_none v)
         end; reflexivity.

(** Which field goes under which keyword. *)
Definition txi_fields : list (string * (PyTXIConfig → pyval)) :=
  [("gpus", gpus); ("image", image); ("ports", ports); ("volumes", volumes);
   ("devices", devices); ("shm_size", shm_size); ("environment", environment);
   ("connection_timeout", connection_timeout);
   ("first_request_timeout", first_request_timeout);
   ("max_concurrent_requests", max_concurrent_requests)]%string.

Definition tei_fields : list (string * (PyTXIConfig → pyval)) :=
  [("dtype", dtype); ("pooling", pooling)]%string.

Definition tgi_fields : list (string * (PyTXIConfig → pyval)) :=
  [("dtype", dtype); ("sharded", sharded); ("quantize", quantize);
   ("num_shard", num_shard); ("speculate", speculate);
   ("cuda_graphs", cuda_graphs); ("trust_remote_code", trust_remote_code);
   ("disable_custom_kernels", disable_custom_kernels)]%string.

Definition passed (value : pyval) : option pyval :=
  if is_none value then None else Some value.

Lemma txi_kwargs_field c name get :
  (name, get) ∈ txi_fields → txi_kwargs c !! name = passed (get c).
Proof.
  unfold txi_fields, passed. rewrite !elem_of_cons, elem_of_nil. intros H.
  repeat (destruct H as [[= -> ->]|H]; [unfold txi_kwargs; kwargs_lookup|]).
  destruct H.
Qed.

Lemma tei_kwargs_field c name get :
  (name, get) ∈ tei_fields → tei_kwargs c !! name = passed (get c).
Proof.
  unfold tei_fields, passed. rewrite !elem_of_cons, elem_of_nil. intros H.
  repeat (destruct H as [[= -> ->]|H]; [unfold tei_kwargs; kwargs_lookup|]).
  destruct H.
Qed.

Lemma tgi_kwargs_field c name get :
  (name, get) ∈ tgi_fields → tgi_kwargs c !! name = passed (get c).
Proof.
  unfold tgi_fields, passed. rewrite !elem_of_cons, elem_of_nil. intros H.
  repeat (destruct H as [[= -> ->]|H]; [unfold tgi_kwargs; kwargs_lookup|]).
  destruct H.
Qed.

(** X27. Each of the three dicts of keyword arguments holds exactly the
    fields of its table that are not [None], each under its own name, and
    nothing else.  The backend's dict shares no keyword with the two
    others, nor any of them the keyword "model_id": the call that builds the
    config of the server never fails on a keyword given twice. *)
Theorem kwargs_pass_set_fields_and_never_clash (c : PyTXIConfig) (model_id : string) :
  (∀ name get, (name, get) ∈ txi_fields → txi_kwargs c !! name = passed (get c))
  ∧ (∀ name get, (name, get) ∈ tei_fields → tei_kwargs c !! name = passed (get c))
  ∧ (∀ name get, (name, get) ∈ tgi_fields → tgi_kwargs c !! name = passed (get c))
  ∧ (∀ k v, txi_kwargs c !! k = Some v → k ∈ txi_names ∧ v ≠ VNone)
  ∧ (∀ k v, tei_kwargs c !! k = Some v → k ∈ tei_names ∧ v ≠ VNone)
  ∧ (∀ k v, tgi_kwargs c !! k = Some v → k ∈ tgi_names ∧ v ≠ VNone)
  ∧ config_kwargs model_id (txi_kwargs c) (tgi_kwargs c)
      = Ok ({[ "model_id"%string := VStr model_id ]} ∪ txi_kwargs c ∪ tgi_kwargs c)
  ∧ config_kwargs model_id (txi_kwargs c) (tei_kwargs c)
      = Ok ({[ "model_id"%string := VStr model_id ]} ∪ txi_kwargs c ∪ tei_kwargs c).
Proof.
  split; [apply txi_kwargs_field|]. split; [apply tei_kwargs_field|].
  split; [apply tgi_kwargs_field|].
  split; [apply txi_kwargs_entry|]. split; [apply tei_kwargs_entry|].
  split; [apply tgi_kwargs_entry|]. split.
  - apply (config_kwargs_Ok _ _ _ tgi_names); [apply tgi_kwargs_entry | auto].
  - apply (config_kwargs_Ok _ _ _ tei_names); [apply tei_kwargs_entry | auto].
Qed.

(** A configuration with two fields set. *)
Definition demo_config : PyTXIConfig :=
  mkConfig "gpt2" "text-generation" (VStr "all") VNone VNone VNone VNone VNone
           VNone VNone VNone VNone (VStr "float16") VNone VNone VNone VNone
           VNone VNone VNone VNone.

Lemma kwargs_pass_set_fields_and_never_clash_witness :
  txi_kwargs demo_config !! "gpus"%string = Some (VStr "all")
  ∧ txi_kwargs demo_config !! "image"%string = None
  ∧ tgi_kwargs demo_config !! "dtype"%string = Some (VStr "float16").
Proof.
  destruct (kwargs_pass_set_fields_and_never_clash demo_config "gpt2")
    as (Htxi & _ & Htgi & _).
  split; [|split].
  - apply (Htxi "gpus"%string gpus). apply list_elem_of_here.
  - apply (Htxi "image"%string image).
    apply list_elem_of_further, list_elem_of_here.
  - apply (Htgi "dtype"%string dtype). apply list_elem_of_here.
Defined.

(** *** Loading with no weights *)

Section BackendFacts.

Variable TEXT_GENERATION_TASKS : list string.
Variable TEXT_EMBEDDING_TASKS : list string.

Definition bound_volume (self : backend) : pyval :=
  VBind (no_weights_model self) "/no_weights_model/" "rw".

(** The configuration while the model is loaded from the bound folder. *)
Definition no_weights_config (self : backend) : PyTXIConfig :=
  set_model "/no_weights_model/" (set_volumes (bound_volume self) (config self)).

Definition model_kwargs (m : txi_model) : gmap string pyval :=
  match m with
  | TGI kwargs | TEI kwargs => kwargs
  end.

Definition supported_task (t : string) : Prop :=
  t ∈ TEXT_GENERATION_TASKS ∨ t ∈ TEXT_EMBEDDING_TASKS.

Lemma config_kwargs_model_and_volumes model_id c more (names : list string) :
  (∀ k v, more !! k = Some v → k ∈ names ∧ v ≠ VNone) →
  (∀ k, k ∈ names → k ∈ tei_names ∨ k ∈ tgi_names) →
  ∃ kwargs,
    config_kwargs model_id (txi_kwargs c) more = Ok kwargs
    ∧ kwargs !! "model_id"%string = Some (VStr model_id)
    ∧ kwargs !! "volumes"%string = passed (volumes c).
Proof.
  intros Hmore Hnames. eexists. split; [eapply config_kwargs_Ok; eassumption|].
  split.
  - apply lookup_union_Some_l, lookup_union_Some_l, lookup_singleton_eq.
  - rewrite <- (txi_kwargs_field c "volumes" volumes)
      by (unfold txi_fields; repeat first [apply list_elem_of_here
                                          | apply list_elem_of_further]).
    destruct (txi_kwargs c !! "volumes"%string) as [v|] eqn:Hv.
    + apply lookup_union_Some_l. rewrite lookup_union_r; [exact Hv|].
      apply lookup_singleton_ne. discriminate.
    + apply lookup_union_None. split.
      * apply lookup_union_None. split; [|exact Hv].
        apply lookup_singleton_ne. discriminate.
      * destruct (more !! "volumes"%string) as [v|] eqn:Hm; [|reflexivity].
        apply Hmore in Hm. destruct Hm as [Hm _]. apply Hnames in Hm.
        exfalso. revert Hm. unfold tei_names, tgi_names.
        rewrite !elem_of_cons, !elem_of_nil. intuition discriminate.
Qed.

(** X28. Loading with no weights binds the folder of the empty model as a
    volume and points the configuration at "/no_weights_model/" while the
    server is built.  For a task of one of the two supported lists the
    server gets that model id and that volume, and afterwards the
    configuration names the original model again (the volume stays).  For
    any other task the load raises [NotImplementedError] and the method
    ends there: the configuration keeps "/no_weights_model/" as its model,
    and no model is loaded. *)
Theorem load_model_with_no_weights_restores_model_on_success_only
    (self : backend) :
  (supported_task (task (config self)) →
     ∃ m,
       load_model_with_no_weights TEXT_GENERATION_TASKS TEXT_EMBEDDING_TASKS self
         = (mkBackend (set_volumes (bound_volume self) (config self))
                      (no_weights_model self) (Some m), None)
       ∧ model_kwargs m !! "model_id"%string = Some (VStr "/no_weights_model/")
       ∧ model_kwargs m !! "volumes"%string = Some (bound_volume self))
  ∧ (¬ supported_task (task (config self)) →
       load_model_with_no_weights TEXT_GENERATION_TASKS TEXT_EMBEDDING_TASKS self
         = (mkBackend (no_weights_config self) (no_weights_model self)
                      (pretrained_model self),
            Some (NotImplementedError
                    ("TXI does not support task " ++ task (config self))))).
Proof.
  unfold load_model_with_no_weights, load_model_from_pretrained, supported_task.
  cbn [config no_weights_model pretrained_model].
  change (task (set_model _ (set_volumes _ (config self))))
    with (task (config self)).
  change (model (set_model "/no_weights_model/" _)) with "/no_weights_model/"%string.
  fold (bound_volume self). fold (no_weights_config self).
  split.
  - intros Htask.
    destruct (config_kwargs_model_and_volumes "/no_weights_model/"
                (no_weights_config self) (tgi_kwargs (no_weights_config self))
                tgi_names (tgi_kwargs_entry _) ltac:(auto))
      as (kg & Hg & Hgm & Hgv).
    destruct (config_kwargs_model_and_volumes "/no_weights_model/"
                (no_weights_config self) (tei_kwargs (no_weights_config self))
                tei_names (tei_kwargs_entry _) ltac:(auto))
      as (ke & He & Hem & Hev).
    destruct (bool_decide (task (config self) ∈ TEXT_GENERATION_TASKS)) eqn:Hgen.
    + rewrite Hg. exists (TGI kg). split; [reflexivity|]. split; assumption.
    + destruct (bool_decide (task (config self) ∈ TEXT_EMBEDDING_TASKS)) eqn:Hemb.
      * rewrite He. exists (TEI ke). split; [reflexivity|]. split; assumption.
      * apply bool_decide_eq_false in Hgen, Hemb. tauto.
  - intros Htask.
    rewrite !bool_decide_eq_false_2 by tauto. reflexivity.
Qed.

End BackendFacts.

Definition set_task (t : string) (c : PyTXIConfig) : PyTXIConfig :=
  mkConfig (model c) t (gpus c) (image c) (ports c) (volumes c) (devices c)
    (shm_size c) (environment c) (connection_timeout c)
    (first_request_timeout c) (max_concurrent_requests c) (dtype c)
    (pooling c) (sharded c) (quantize c) (num_shard c) (speculate c)
    (cuda_graphs c) (trust_remote_code c) (disable_custom_kernels c).

Definition demo_backend (task : string) : backend :=
  mkBackend (set_task task demo_config) "/tmp/no_weights_model" None.

Lemma load_model_with_no_weights_restores_model_on_success_only_witness :
  (∃ m,
     load_model_with_no_weights ["text-generation"%string]
       ["feature-extraction"%string] (demo_backend "text-generation")
       = (mkBackend
            (set_volumes (bound_volume (demo_backend "text-generation"))
                         (config (demo_backend "text-generation")))
            "/tmp/no_weights_model" (Some m), None)
     ∧ model_kwargs m !! "model_id"%string = Some (VStr "/no_weights_model/")
     ∧ model_kwargs m !! "volumes"%string
         = Some (VBind "/tmp/no_weights_model" "/no_weights_model/" "rw"))
  ∧ model (config (load_model_with_no_weights ["text-generation"%string]
                     ["feature-extraction"%string]
                     (demo_backend "image-classification")).1)
      = "/no_weights_model/"%string.
Proof.
  split.
  - apply (proj1 (load_model_with_no_weights_restores_model_on_success_only
                    ["text-generation"%string] ["feature-extraction"%string]
                    (demo_backend "text-generation"))).
    left. apply list_elem_of_here.
  - rewrite (proj2 (load_model_with_no_weights_restores_model_on_success_only
                      ["text-generation"%string] ["feature-extraction"%string]
                      (demo_backend "image-classification"))).
    + reflexivity.
    + unfold supported_task. simpl. rewrite !elem_of_cons, !elem_of_nil.
      intuition discriminate.
Defined.

End PyTXI.
